(** * loadgen.py: workload orchestration and lifecycle engine

    A shallow embedding of [src/loadgen.py].  Python objects live in a heap
    indexed by object identities, threads in a thread table, and the
    collaborators of the program (file system, Prometheus instruments, logger)
    are fields of one [world] record.  Worker threads are small-step machines;
    the operations of the main thread are functions on [world].  Every value
    the program obtains from outside (HTTP responses, clock readings, raised
    exceptions, the threads that run while the main thread blocks) is an
    explicit argument.

    Conventions of the model:
    - the main thread yields to the workers where it blocks, in
      [thread.join(timeout=5)] and in [time.sleep(1)]; between two such points
      its statements run without interleaving;
    - a worker step is the test of [while self.running], one body of the
      [try] block, or, for the network loop, one round of [for endpoint];
    - the clock of the run loop counts milliseconds, and a completed
      [time.sleep(1)] takes at least 1000 of them;
    - SIGINT and SIGTERM reach the process while the run loop sleeps;
    - a [bytearray] is its length, a file is its name, a log record is its
      level and format string with the values filled in. *)

From Stdlib Require Import ZArith String List Lia.
From stdpp Require Import gmap strings list fin_maps pretty.

Open Scope string_scope.
Open Scope list_scope.

(** ** Intensity profiles *)

(** One row of [intensity_levels]. *)
Record profile := Profile {
  cpu_percent : Z;
  memory_mb : Z;
  duration : Z
}.

Global Instance profile_eq_dec : EqDecision profile.
Proof. solve_decision. Defined.

Global Instance profile_inhabited : Inhabited profile := populate (Profile 0 0 0).

Definition intensity_levels : gmap string profile :=
  <["low" := Profile 20 100 30]>
  (<["medium" := Profile 50 250 60]>
  (<["high" := Profile 80 500 120]>
  (<["custom" := Profile 70 300 90]> ∅))).

(** [d.get(k, default)] of a Python dict. *)
Definition dict_get {V} (d : gmap string V) (k : string) (dflt : V) : V :=
  default dflt (d !! k).

(** [self.config = self.intensity_levels.get(intensity, self.intensity_levels["medium"])] *)
Definition config_of (intensity : string) : profile :=
  dict_get intensity_levels intensity (intensity_levels !!! "medium").

(** ** The world: heap, threads, file system, instruments, log *)

Abbreviation oid := nat (only parsing).   (* identity of a generator object *)
Abbreviation tid := nat (only parsing).   (* identity of a [threading.Thread] *)

(** The fields a subclass adds to [WorkloadGenerator].  A [bytearray] is
    represented by its length; file contents are not observed by the program
    beyond a discarded checksum, so a file is represented by its name. *)
Inductive subclass :=
  | CPUWorkload
  | MemoryWorkload (memory_chunks : list Z)
  | NetworkWorkload (endpoints : list string)
  | StorageWorkload (temp_files : list string)
  | MixedWorkload (workloads : list oid).

Record WorkloadGenerator := Generator {
  name : string;
  intensity : string;
  running : bool;
  threads : list tid;
  config : profile;
  fields : subclass
}.

(** The bound method a thread was created with ([target=], [args=]). *)
Inductive target :=
  | cpu_stress (thread_id : nat)
  | memory_stress
  | network_stress (thread_id : nat)
  | storage_stress.

(** Where a worker thread stands in its [while self.running] loop. *)
Inductive pc :=
  | AtTop                (* about to evaluate [self.running] *)
  | InBody               (* the test succeeded; the body of the try block is next *)
  | NetFor (i : nat)     (* network only: at the head of [for endpoint], index [i] *)
  | Exited.              (* the loop was left, the thread is dead *)

Record Thread := {
  th_target : target;
  th_self : oid;
  th_pc : pc;
  daemon : bool
}.

Inductive level := INFO | WARNING | ERROR.

(** Log messages, one constructor per format string of the source. *)
Inductive message :=
  | MsgStarting (name intensity : string)
  | MsgStopped (name : string)
  | MsgCpuError (thread_id : nat)
  | MsgMemoryError
  | MsgNetworkError (thread_id : nat)
  | MsgStorageError
  | MsgCouldNotRemove (temp_file : string)
  | MsgSignal (signum : Z)
  | MsgAdded (workload_type intensity : string)
  | MsgNoWorkloads
  | MsgAllStarted
  | MsgAllStopped
  | MsgAllCleaned
  | MsgMainStarting
  | MsgMainConfig (workload_type intensity : string) (duration : Z)
  | MsgMetricsServer (port : Z)
  | MsgProgress (elapsed : Z)
  | MsgCompleted
  | MsgInterrupted
  | MsgUnexpected
  | MsgShutdownComplete.

Global Instance subclass_eq_dec : EqDecision subclass.
Proof. solve_decision. Defined.
Global Instance generator_eq_dec : EqDecision WorkloadGenerator.
Proof. solve_decision. Defined.
Global Instance target_eq_dec : EqDecision target.
Proof. solve_decision. Defined.
Global Instance pc_eq_dec : EqDecision pc.
Proof. solve_decision. Defined.
Global Instance level_eq_dec : EqDecision level.
Proof. solve_decision. Defined.
Global Instance message_eq_dec : EqDecision message.
Proof. solve_decision. Defined.

Record world := World {
  heap : list WorkloadGenerator;               (* generator objects, by identity *)
  thread_table : list Thread;                  (* every thread ever started *)
  fs : gset string;                            (* names of the files that exist *)
  LOAD_REQUESTS_TOTAL : gmap string nat;       (* Counter, by workload_type *)
  LOAD_DURATION : gmap string (list Z);        (* Histogram: observed values *)
  RESOURCE_USAGE : gmap (string * string) Z;   (* Gauge, by (resource_type, workload_type) *)
  ERROR_COUNT : gmap string nat;               (* Counter, by workload_type *)
  log : list (level * message);                (* records written through [logger] *)
  cpu_count : nat                              (* what [psutil.cpu_count()] returns *)
}.

Definition upd_heap (f : list WorkloadGenerator → list WorkloadGenerator) (w : world) : world :=
  World (f (heap w)) (thread_table w) (fs w) (LOAD_REQUESTS_TOTAL w) (LOAD_DURATION w)
        (RESOURCE_USAGE w) (ERROR_COUNT w) (log w) (cpu_count w).
Definition upd_threads (f : list Thread → list Thread) (w : world) : world :=
  World (heap w) (f (thread_table w)) (fs w) (LOAD_REQUESTS_TOTAL w) (LOAD_DURATION w)
        (RESOURCE_USAGE w) (ERROR_COUNT w) (log w) (cpu_count w).
Definition upd_fs (f : gset string → gset string) (w : world) : world :=
  World (heap w) (thread_table w) (f (fs w)) (LOAD_REQUESTS_TOTAL w) (LOAD_DURATION w)
        (RESOURCE_USAGE w) (ERROR_COUNT w) (log w) (cpu_count w).
Definition upd_requests (f : gmap string nat → gmap string nat) (w : world) : world :=
  World (heap w) (thread_table w) (fs w) (f (LOAD_REQUESTS_TOTAL w)) (LOAD_DURATION w)
        (RESOURCE_USAGE w) (ERROR_COUNT w) (log w) (cpu_count w).
Definition upd_duration (f : gmap string (list Z) → gmap string (list Z)) (w : world) : world :=
  World (heap w) (thread_table w) (fs w) (LOAD_REQUESTS_TOTAL w) (f (LOAD_DURATION w))
        (RESOURCE_USAGE w) (ERROR_COUNT w) (log w) (cpu_count w).
Definition upd_usage (f : gmap (string * string) Z → gmap (string * string) Z) (w : world) : world :=
  World (heap w) (thread_table w) (fs w) (LOAD_REQUESTS_TOTAL w) (LOAD_DURATION w)
        (f (RESOURCE_USAGE w)) (ERROR_COUNT w) (log w) (cpu_count w).
Definition upd_errors (f : gmap string nat → gmap string nat) (w : world) : world :=
  World (heap w) (thread_table w) (fs w) (LOAD_REQUESTS_TOTAL w) (LOAD_DURATION w)
        (RESOURCE_USAGE w) (f (ERROR_COUNT w)) (log w) (cpu_count w).
Definition upd_log (f : list (level * message) → list (level * message)) (w : world) : world :=
  World (heap w) (thread_table w) (fs w) (LOAD_REQUESTS_TOTAL w) (LOAD_DURATION w)
        (RESOURCE_USAGE w) (ERROR_COUNT w) (f (log w)) (cpu_count w).

(** *** Instruments and logger *)

(** [C.labels(workload_type=l).inc()] *)
Definition requests_inc (l : string) : world → world :=
  upd_requests (λ c, <[l := S (c !!! l)]> c).
Definition errors_inc (l : string) : world → world :=
  upd_errors (λ c, <[l := S (c !!! l)]> c).
(** [LOAD_DURATION.labels(workload_type=l).observe(v)] *)
Definition duration_observe (l : string) (v : Z) : world → world :=
  upd_duration (λ h, <[l := (h !!! l) ++ [v]]> h).
(** [RESOURCE_USAGE.labels(resource_type=r, workload_type=l).set(v)] *)
Definition usage_set (r l : string) (v : Z) : world → world :=
  upd_usage (λ g, <[(r, l) := v]> g).

Definition logger (lv : level) (m : message) : world → world :=
  upd_log (λ l, l ++ [(lv, m)]).

(** *** Attribute access on heap objects *)

Definition set_running (b : bool) (g : WorkloadGenerator) : WorkloadGenerator :=
  Generator (name g) (intensity g) b (threads g) (config g) (fields g).
Definition set_threads (ts : list tid) (g : WorkloadGenerator) : WorkloadGenerator :=
  Generator (name g) (intensity g) (running g) ts (config g) (fields g).
Definition set_fields (s : subclass) (g : WorkloadGenerator) : WorkloadGenerator :=
  Generator (name g) (intensity g) (running g) (threads g) (config g) s.

Definition obj_update (o : oid) (f : WorkloadGenerator → WorkloadGenerator) : world → world :=
  upd_heap (alter f o).

(** [self.running] as read by a thread or the main thread. *)
Definition obj_running (o : oid) (w : world) : bool :=
  match heap w !! o with Some g => running g | None => false end.
Definition obj_threads (o : oid) (w : world) : list tid :=
  match heap w !! o with Some g => threads g | None => [] end.

Definition set_pc (t : tid) (p : pc) : world → world :=
  upd_threads (alter (λ th, Build_Thread (th_target th) (th_self th) p (daemon th)) t).

(** [thread.is_alive()] *)
Definition is_alive (t : tid) (w : world) : bool :=
  match thread_table w !! t with
  | Some th => bool_decide (th_pc th ≠ Exited)
  | None => false
  end.

Notation "w |> f" := (f w) (at level 45, left associativity, only parsing).

(** ** Worker threads

    A thread advances by [thread_step].  Whatever a step obtains from outside
    the program is read from an [env]: clock readings, the status code of an
    HTTP response, [psutil] readings, and which fallible call, if any, raises.
    A [schedule] lists the steps that are taken, in order, while the main
    thread is blocked. *)

Inductive fault :=
  | NoFault
  | AllocFault      (* [bytearray(chunk_size)] raises *)
  | OpenFault       (* [open(filename, 'wb')] raises, nothing is created *)
  | WriteFault      (* [f.write(data)] raises, the file exists already *)
  | ReadFault       (* reading a file back raises *)
  | RequestFault    (* [requests.get] raises (timeout, connection error) *)
  | PsutilFault.    (* the [psutil] call of the iteration raises *)

Record env := Env {
  now : Z;            (* [int(time.time())] *)
  elapsed : Z;        (* [time.time() - start_time] handed to the histogram *)
  raised : fault;
  status_code : Z;    (* [response.status_code] *)
  reading1 : Z;       (* first value set from a [psutil] reading *)
  reading2 : Z        (* second value set from a [psutil] reading *)
}.

Definition schedule := list (tid * env).

Definition append_chunk (o : oid) (chunk : Z) : world → world :=
  obj_update o (λ g, match fields g with
                     | MemoryWorkload cs => set_fields (MemoryWorkload (cs ++ [chunk])) g
                     | _ => g
                     end).

Definition append_temp_file (o : oid) (filename : string) : world → world :=
  obj_update o (λ g, match fields g with
                     | StorageWorkload fl => set_fields (StorageWorkload (fl ++ [filename])) g
                     | _ => g
                     end).

Definition obj_endpoints (o : oid) (w : world) : list string :=
  match heap w !! o with
  | Some g => match fields g with NetworkWorkload eps => eps | _ => [] end
  | None => []
  end.

Definition obj_memory_mb (o : oid) (w : world) : Z :=
  match heap w !! o with Some g => memory_mb (config g) | None => 0 end.

(** The try block of [_cpu_stress], and its except clause. *)
Definition cpu_body (thread_id : nat) (e : env) (w : world) : world :=
  let w := w |> duration_observe "cpu" (elapsed e) |> requests_inc "cpu" in
  match raised e with
  | PsutilFault => w |> logger ERROR (MsgCpuError thread_id) |> errors_inc "cpu"
  | _ => w |> usage_set "cpu_percent" "cpu" (reading1 e)
  end.

(** The try block of [_memory_stress]: the chunk is retained as soon as it is
    allocated. *)
Definition memory_body (o : oid) (e : env) (w : world) : world :=
  let chunk_size := (obj_memory_mb o w * 1024 * 1024)%Z in
  match raised e with
  | AllocFault => w |> logger ERROR MsgMemoryError |> errors_inc "memory"
  | f =>
    let w := w |> append_chunk o chunk_size
               |> duration_observe "memory" (elapsed e) |> requests_inc "memory" in
    match f with
    | PsutilFault => w |> logger ERROR MsgMemoryError |> errors_inc "memory"
    | _ => w |> usage_set "memory_percent" "memory" (reading1 e)
             |> usage_set "memory_used_mb" "memory" (reading2 e)
    end
  end.

Definition storage_filename (e : env) : string :=
  "/tmp/loadgen_storage_" +:+ pretty (now e) +:+ ".dat".

(** The try block of [_storage_stress]: the file name is recorded only after
    the file has been written completely. *)
Definition storage_body (o : oid) (e : env) (w : world) : world :=
  let filename := storage_filename e in
  let failed w := w |> logger ERROR MsgStorageError |> errors_inc "storage" in
  match raised e with
  | OpenFault => failed w
  | WriteFault => w |> upd_fs (λ s, {[filename]} ∪ s) |> failed
  | f =>
    let w := w |> upd_fs (λ s, {[filename]} ∪ s) |> append_temp_file o filename in
    match f with
    | ReadFault => failed w
    | _ =>
      let w := w |> duration_observe "storage" (elapsed e) |> requests_inc "storage" in
      match f with
      | PsutilFault => failed w
      | _ => w |> usage_set "disk_percent" "storage" (reading1 e)
               |> usage_set "disk_free_gb" "storage" (reading2 e)
      end
    end
  end.

(** What follows the [for endpoint] loop of [_network_stress]. *)
Definition network_after (thread_id : nat) (t : tid) (e : env) (w : world) : world :=
  let w := w |> duration_observe "network" (elapsed e) in
  match raised e with
  | PsutilFault => w |> logger ERROR (MsgNetworkError thread_id) |> errors_inc "network"
  | _ => w |> usage_set "network_bytes_sent" "network" (reading1 e)
           |> usage_set "network_bytes_recv" "network" (reading2 e)
  end |> set_pc t AtTop.

(** One round of the [for endpoint in self.endpoints] loop. *)
Definition network_for (thread_id : nat) (t : tid) (o : oid) (i : nat) (e : env)
    (w : world) : world :=
  match obj_endpoints o w !! i with
  | None => network_after thread_id t e w
  | Some endpoint =>
    if negb (obj_running o w) then network_after thread_id t e w   (* break *)
    else match raised e with
         | RequestFault =>
           w |> logger ERROR (MsgNetworkError thread_id) |> errors_inc "network"
             |> set_pc t AtTop
         | _ =>
           (if (status_code e =? 200)%Z then requests_inc "network" w else w)
             |> set_pc t (NetFor (S i))
         end
  end.

Definition thread_step (t : tid) (e : env) (w : world) : world :=
  match thread_table w !! t with
  | None => w
  | Some th =>
    let o := th_self th in
    match th_pc th, th_target th with
    | Exited, _ => w
    | AtTop, tg =>
      if obj_running o w
      then set_pc t (match tg with network_stress _ => NetFor 0 | _ => InBody end) w
      else set_pc t Exited w
    | InBody, cpu_stress i => w |> cpu_body i e |> set_pc t AtTop
    | InBody, memory_stress => w |> memory_body o e |> set_pc t AtTop
    | InBody, storage_stress => w |> storage_body o e |> set_pc t AtTop
    | NetFor i, network_stress k => network_for k t o i e w
    | InBody, network_stress _ => w
    | NetFor _, _ => w
    end
  end.

Definition run_sched (s : schedule) (w : world) : world :=
  foldl (λ w te, thread_step te.1 te.2 w) w s.

(** ** Generators *)

(** [WorkloadGenerator.__init__], with the fields of the subclass. *)
Definition WorkloadGenerator_init (name intensity : string) (s : subclass) : WorkloadGenerator :=
  Generator name intensity false [] (config_of intensity) s.

(** Object creation: the new object gets the next free identity. *)
Definition new_object (g : WorkloadGenerator) (w : world) : oid * world :=
  (length (heap w), upd_heap (λ h, h ++ [g]) w).

Definition default_endpoints : list string :=
  [ "https://httpbin.org/get";
    "https://httpbin.org/post";
    "https://httpbin.org/status/200";
    "https://httpbin.org/delay/1" ].

(** The classes that [workload_map] can name. *)
Inductive workload_class := ClsCPU | ClsMemory | ClsNetwork | ClsStorage | ClsMixed.

Definition CPUWorkload_new (intensity : string) : world → oid * world :=
  new_object (WorkloadGenerator_init "CPU" intensity CPUWorkload).
Definition MemoryWorkload_new (intensity : string) : world → oid * world :=
  new_object (WorkloadGenerator_init "Memory" intensity (MemoryWorkload [])).
Definition NetworkWorkload_new (intensity : string) : world → oid * world :=
  new_object (WorkloadGenerator_init "Network" intensity (NetworkWorkload default_endpoints)).
Definition StorageWorkload_new (intensity : string) : world → oid * world :=
  new_object (WorkloadGenerator_init "Storage" intensity (StorageWorkload [])).

(** [MixedWorkload.__init__]: the base initialiser runs on the new object,
    then the four children are created and stored in [self.workloads]. *)
Definition MixedWorkload_new (intensity : string) (w : world) : oid * world :=
  let '(self, w) := new_object (WorkloadGenerator_init "Mixed" intensity (MixedWorkload [])) w in
  let '(c1, w) := CPUWorkload_new intensity w in
  let '(c2, w) := MemoryWorkload_new intensity w in
  let '(c3, w) := NetworkWorkload_new intensity w in
  let '(c4, w) := StorageWorkload_new intensity w in
  (self, obj_update self (set_fields (MixedWorkload [c1; c2; c3; c4])) w).

Definition construct (c : workload_class) (intensity : string) : world → oid * world :=
  match c with
  | ClsCPU => CPUWorkload_new intensity
  | ClsMemory => MemoryWorkload_new intensity
  | ClsNetwork => NetworkWorkload_new intensity
  | ClsStorage => StorageWorkload_new intensity
  | ClsMixed => MixedWorkload_new intensity
  end.

(** *** start *)

Definition WorkloadGenerator_start (o : oid) (w : world) : world :=
  match heap w !! o with
  | None => w
  | Some g =>
    w |> obj_update o (set_running true)
      |> logger INFO (MsgStarting (name g) (intensity g))
  end.

(** [threading.Thread(target=..)], [daemon = True], [thread.start()],
    [self.threads.append(thread)]. *)
Definition spawn (tg : target) (o : oid) (w : world) : world :=
  let t := length (thread_table w) in
  w |> upd_threads (λ ts, ts ++ [Build_Thread tg o AtTop true])
    |> obj_update o (λ g, set_threads (threads g ++ [t]) g).

(** Method dispatch on the class of the object.  [n] bounds the nesting of
    [MixedWorkload] objects that is followed; [MixedWorkload.__init__] only
    builds children of the four other classes, so the nesting is 1. *)
Fixpoint start_n (n : nat) (o : oid) (w : world) : world :=
  match heap w !! o with
  | None => w
  | Some g =>
    let w := WorkloadGenerator_start o w in
    match fields g with
    | CPUWorkload => foldl (λ w i, spawn (cpu_stress i) o w) w (seq 0 (cpu_count w))
    | MemoryWorkload _ => spawn memory_stress o w
    | NetworkWorkload _ => foldl (λ w i, spawn (network_stress i) o w) w (seq 0 3)
    | StorageWorkload _ => spawn storage_stress o w
    | MixedWorkload ws =>
      match n with
      | 0 => w
      | S n => foldl (λ w c, start_n n c w) w ws
      end
    end
  end.

Definition start : oid → world → world := start_n 1.

(** *** stop *)

(** [thread.join(timeout=5)]: the caller blocks while the steps [js t] are
    taken; it resumes when the thread has exited or the timeout has elapsed,
    whichever the schedule amounts to. *)
Definition join (js : tid → schedule) (t : tid) : world → world := run_sched (js t).

Definition WorkloadGenerator_stop (js : tid → schedule) (o : oid) (w : world) : world :=
  match heap w !! o with
  | None => w
  | Some g =>
    let w := obj_update o (set_running false) w in
    let w := foldl (λ w t, if is_alive t w then join js t w else w) w (threads g) in
    logger INFO (MsgStopped (name g)) w
  end.

Fixpoint stop_n (n : nat) (js : tid → schedule) (o : oid) (w : world) : world :=
  match heap w !! o with
  | None => w
  | Some g =>
    let w := WorkloadGenerator_stop js o w in
    match fields g with
    | MixedWorkload ws =>
      match n with
      | 0 => w
      | S n => foldl (λ w c, stop_n n js c w) w ws
      end
    | _ => w
    end
  end.

Definition stop : (tid → schedule) → oid → world → world := stop_n 1.

(** *** cleanup *)

(** The body of the loop of [StorageWorkload.cleanup]; [rm f] tells whether
    [os.remove(f)] raises. *)
Definition remove_temp_file (rm : string → bool) (temp_file : string) (w : world) : world :=
  if bool_decide (temp_file ∈ fs w) then
    if rm temp_file then logger WARNING (MsgCouldNotRemove temp_file) w
    else upd_fs (λ s, s ∖ {[temp_file]}) w
  else w.

Fixpoint cleanup_n (n : nat) (rm : string → bool) (o : oid) (w : world) : world :=
  match heap w !! o with
  | None => w
  | Some g =>
    match fields g with
    | MemoryWorkload _ => obj_update o (set_fields (MemoryWorkload [])) w
    | StorageWorkload fl =>
      foldl (λ w f, remove_temp_file rm f w) w fl
        |> obj_update o (set_fields (StorageWorkload []))
    | MixedWorkload ws =>
      match n with
      | 0 => w
      | S n => foldl (λ w c, cleanup_n n rm c w) w ws
      end
    | CPUWorkload | NetworkWorkload _ => w
    end
  end.

Definition cleanup : (string → bool) → oid → world → world := cleanup_n 1.

(** ** The manager *)

Record LoadGeneratorManager := Manager {
  mgr_workloads : list (string * oid);   (* [self.workloads]: a dict, in insertion order *)
  mgr_running : bool;                    (* [self.running] *)
  signal_received : bool
}.

Definition LoadGeneratorManager_init : LoadGeneratorManager := Manager [] false false.

(** The manager together with everything else. *)
Definition state := (LoadGeneratorManager * world)%type.

(** [d[k] = v] on a dict kept in insertion order: an existing key keeps its
    place and gets the new value, a new key goes last. *)
Fixpoint dict_set {V} (k : string) (v : V) (d : list (string * V)) : list (string * V) :=
  match d with
  | [] => [(k, v)]
  | (k', v') :: d' => if decide (k = k') then (k, v) :: d' else (k', v') :: dict_set k v d'
  end.

Fixpoint dict_lookup {V} (k : string) (d : list (string * V)) : option V :=
  match d with
  | [] => None
  | (k', v') :: d' => if decide (k = k') then Some v' else dict_lookup k d'
  end.

(** [d.values()] *)
Definition values {V} (d : list (string * V)) : list V := d.*2.

Definition workload_map : gmap string workload_class :=
  <["cpu" := ClsCPU]>
  (<["memory" := ClsMemory]>
  (<["network" := ClsNetwork]>
  (<["storage" := ClsStorage]>
  (<["mixed" := ClsMixed]> ∅)))).

Inductive exn :=
  | ValueError (workload_type : string)   (* "Unknown workload type: ..." *)
  | KeyboardInterrupt
  | SystemExit (code : Z)
  | OtherException.                       (* any other subclass of [Exception] *)

(** [add_workload] returns the exception it raises, if any, and the state it
    leaves. *)
Definition add_workload (workload_type intensity : string) (st : state) : option exn * state :=
  let '(m, w) := st in
  match workload_map !! workload_type with
  | None => (Some (ValueError workload_type), (m, w))
  | Some workload_class =>
    let '(o, w) := construct workload_class intensity w in
    (None,
     (Manager (dict_set workload_type o (mgr_workloads m)) (mgr_running m) (signal_received m),
      logger INFO (MsgAdded workload_type intensity) w))
  end.

Definition start_all (st : state) : state :=
  let '(m, w) := st in
  match mgr_workloads m with
  | [] => (m, logger WARNING MsgNoWorkloads w)
  | _ :: _ =>
    (Manager (mgr_workloads m) true (signal_received m),
     foldl (λ w o, start o w) w (values (mgr_workloads m)) |> logger INFO MsgAllStarted)
  end.

Definition stop_all (js : tid → schedule) (st : state) : state :=
  let '(m, w) := st in
  (Manager (mgr_workloads m) false (signal_received m),
   foldl (λ w o, stop js o w) w (values (mgr_workloads m)) |> logger INFO MsgAllStopped).

Definition cleanup_all (rm : string → bool) (st : state) : state :=
  let '(m, w) := st in
  (m, foldl (λ w o, cleanup rm o w) w (values (mgr_workloads m)) |> logger INFO MsgAllCleaned).

(** [_signal_handler] up to its last statement, [sys.exit(0)], which raises
    [SystemExit 0] in the main thread. *)
Definition signal_handler (signum : Z) (js : tid → schedule) (st : state) : state :=
  let '(m, w) := st in
  let w := logger INFO (MsgSignal signum) w in
  let m := Manager (mgr_workloads m) (mgr_running m) true in
  stop_all js (m, w).

(** ** The run loop *)

(** The four values [main] reads from the environment, after [.lower()] and
    [int(..)]. *)
Record settings := Settings {
  WORKLOAD_TYPE : string;
  LOAD_INTENSITY : string;
  DURATION : Z;
  METRICS_PORT : Z
}.

(** What one call of [time.sleep(1)] in the polling loop amounts to. *)
Inductive happening :=
  | Slept (extra : nat)    (* returns after 1000 + extra milliseconds *)
  | Signal (signum : Z)    (* SIGINT or SIGTERM is delivered: the installed handler runs *)
  | Interrupt              (* [KeyboardInterrupt] is raised *)
  | Failure.               (* some [Exception] is raised *)

Record tick := Tick {
  during : schedule;                (* the worker steps taken meanwhile *)
  happens : happening;
  handler_joins : tid → schedule    (* for the joins of the handler's [stop_all] *)
}.

Record main_env := MainEnv {
  t0 : Z;                           (* the clock, in milliseconds, when the loop starts *)
  ticks : nat → tick;               (* the i-th call of [time.sleep(1)] *)
  final_joins : tid → schedule;     (* for the joins of the [stop_all] of [finally] *)
  remove_raises : string → bool     (* whether [os.remove] raises on a file *)
}.

(** The [while] loop of [main].  Times are in milliseconds.  [None] means the
    fuel ran out. *)
Fixpoint poll (fuel : nat) (ticks : nat → tick) (i : nat) (start_time now duration : Z)
    (st : state) : option (option exn * state) :=
  let '(m, w) := st in
  if (now - start_time <? duration * 1000)%Z && negb (signal_received m) then
    match fuel with
    | 0 => None
    | S fuel =>
      let tk := ticks i in
      let w := run_sched (during tk) w in
      match happens tk with
      | Slept extra =>
        let now := (now + 1000 + Z.of_nat extra)%Z in
        let elapsed := ((now - start_time) / 1000)%Z in
        let w := if (elapsed mod 30 =? 0)%Z then logger INFO (MsgProgress elapsed) w else w in
        poll fuel ticks (S i) start_time now duration (m, w)
      | Signal signum =>
        Some (Some (SystemExit 0), signal_handler signum (handler_joins tk) (m, w))
      | Interrupt => Some (Some KeyboardInterrupt, (m, w))
      | Failure => Some (Some OtherException, (m, w))
      end
    end
  else Some (None, (m, w)).

(** [main]: the result is the exception that leaves [main], if any, and the
    final state. *)
Definition main (cfg : settings) (env : main_env) (w : world) : option (option exn * state) :=
  let workload_type := WORKLOAD_TYPE cfg in
  let w := w |> logger INFO MsgMainStarting
             |> logger INFO (MsgMainConfig workload_type (LOAD_INTENSITY cfg) (DURATION cfg))
             |> logger INFO (MsgMetricsServer (METRICS_PORT cfg)) in
  let manager := LoadGeneratorManager_init in
  match add_workload workload_type (LOAD_INTENSITY cfg) (manager, w) with
  | (Some e, st) => Some (Some e, st)              (* raised before the [try] *)
  | (None, st) =>
    let st := start_all st in
    match poll (Z.to_nat (DURATION cfg)) (ticks env) 0 (t0 env) (t0 env) (DURATION cfg) st with
    | None => None
    | Some (r, (m, w)) =>
      let '(pending, w) :=
        match r with
        | None => (None, logger INFO MsgCompleted w)
        | Some KeyboardInterrupt => (None, logger INFO MsgInterrupted w)
        | Some (SystemExit c) => (Some (SystemExit c), w)   (* not an [Exception] *)
        | Some (ValueError _) | Some OtherException =>
          (None, w |> logger ERROR MsgUnexpected |> errors_inc workload_type)
        end in
      (* finally *)
      let '(m, w) := (m, w) |> stop_all (final_joins env)
                            |> cleanup_all (remove_raises env) in
      Some (pending, (m, logger INFO MsgShutdownComplete w))
    end
  end.

(** * Vocabulary of the specification *)

(** ** What lifecycle operations leave alone

    [keeps g g']: [g'] is [g] up to its running flag and the contents of its
    artifact lists.  [frame w w']: the heaps of [w] and [w'] hold the same
    objects, pairwise related by [keeps]. *)

Definition same_class (s s' : subclass) : Prop :=
  match s, s' with
  | CPUWorkload, CPUWorkload => True
  | MemoryWorkload _, MemoryWorkload _ => True
  | NetworkWorkload eps, NetworkWorkload eps' => eps' = eps
  | StorageWorkload _, StorageWorkload _ => True
  | MixedWorkload ws, MixedWorkload ws' => ws' = ws
  | _, _ => False
  end.

Definition keeps (g g' : WorkloadGenerator) : Prop :=
  name g' = name g ∧ intensity g' = intensity g ∧ threads g' = threads g ∧
  config g' = config g ∧ same_class (fields g) (fields g').

Definition frame (w w' : world) : Prop := Forall2 keeps (heap w) (heap w').

(** ** Idle generators and the threads a start adds *)

(** [self.workloads] of a [MixedWorkload], no children for the other classes. *)
Definition obj_children (o : oid) (w : world) : list oid :=
  match heap w !! o with
  | Some g => match fields g with MixedWorkload ws => ws | _ => [] end
  | None => []
  end.

(** A generator that was never started: it owns no thread, and neither do
    its children. *)
Definition never_started (o : oid) (w : world) : Prop :=
  obj_threads o w = [] ∧ ∀ c, c ∈ obj_children o w → obj_threads c w = [].

(** Clearing the running flag and writing the log record, nothing else: what
    [WorkloadGenerator.stop] comes to when no thread is joined. *)
Definition mark_stopped (o : oid) (w : world) : world :=
  match heap w !! o with
  | None => w
  | Some g => w |> obj_update o (set_running false) |> logger INFO (MsgStopped (name g))
  end.

(** The number of threads that [start] appends to [self.threads]. *)
Definition units (s : subclass) (w : world) : nat :=
  match s with
  | CPUWorkload => cpu_count w
  | MemoryWorkload _ => 1
  | NetworkWorkload _ => 3
  | StorageWorkload _ => 1
  | MixedWorkload _ => 0
  end.

(** ** Owned artifacts *)

(** [self.memory_chunks] of a memory generator. *)
Definition owned_chunks (o : oid) (w : world) : list Z :=
  match heap w !! o with
  | Some g => match fields g with MemoryWorkload cs => cs | _ => [] end
  | None => []
  end.

(** [self.temp_files] of a storage generator. *)
Definition recorded_files (o : oid) (w : world) : list string :=
  match heap w !! o with
  | Some g => match fields g with StorageWorkload fl => fl | _ => [] end
  | None => []
  end.

(** A generator together with the children it forwards its calls to. *)
Definition family (o : oid) (w : world) : list oid := o :: obj_children o w.

(** No retained buffer and no recorded file. *)
Definition clean (o : oid) (w : world) : Prop :=
  owned_chunks o w = [] ∧ recorded_files o w = [].

(** After a cleanup that started in [before] and ended in [after], the
    generator [o] and its children retain no buffer and no file they had
    recorded exists. *)
Definition zero_artifacts (o : oid) (before after : world) : Prop :=
  ∀ c, c ∈ family o before →
    owned_chunks c after = [] ∧ recorded_files c after = [] ∧
    ∀ f, f ∈ recorded_files c before → f ∉ fs after.

(** ** Responses received by the network threads *)

(** The value of the request counter for a workload type. *)
Definition requests_total (l : string) (w : world) : nat := LOAD_REQUESTS_TOTAL w !!! l.

(** The status code of the response that the step [(t, e)] receives in [w]:
    the thread runs [_network_stress], stands at an endpoint of the [for]
    loop, sees the running flag set (so it does not [break]), and
    [requests.get] returns instead of raising. *)
Definition response_received (t : tid) (e : env) (w : world) : option Z :=
  match thread_table w !! t with
  | Some th =>
    match th_target th, th_pc th with
    | network_stress _, NetFor i =>
      match obj_endpoints (th_self th) w !! i with
      | Some _ =>
        if obj_running (th_self th) w
        then match raised e with RequestFault => None | _ => Some (status_code e) end
        else None
      | None => None
      end
    | _, _ => None
    end
  | None => None
  end.

(** The test the source applies to a response. *)
Definition is_success (status : Z) : bool := (status =? 200)%Z.

(** The number of responses with a success status received along a schedule. *)
Fixpoint successes (s : schedule) (w : world) : nat :=
  match s with
  | [] => 0
  | (t, e) :: s' =>
    (match response_received t e w with
     | Some status => if is_success status then 1 else 0
     | None => 0
     end) + successes s' (thread_step t e w)
  end.

(** ** The workload mapping *)

(** The generators stored under a key. *)
Fixpoint stored_under {V} (k : string) (d : list (string * V)) : list V :=
  match d with
  | [] => []
  | (k', v) :: d' => if decide (k = k') then v :: stored_under k d' else stored_under k d'
  end.

(** The invariant of the mapping: at most one generator per key, every
    stored generator is an object of the heap, and every key is a key of
    [workload_map]. *)
Definition wf_state (st : state) : Prop :=
  (∀ k, (length (stored_under k (mgr_workloads st.1)) ≤ 1)%nat) ∧
  Forall (λ o, (o < length (heap st.2))%nat) (mgr_workloads st.1).*2 ∧
  Forall (λ k, is_Some (workload_map !! k)) (mgr_workloads st.1).*1.

(** What [stop] followed by [cleanup] establish for a generator: its running
    flag is cleared and it holds no artifact. *)
Definition stopped_and_cleaned (o : oid) (w : world) : Prop :=
  obj_running o w = false ∧ clean o w.

(** ** The calls of the run loop on the manager

    [stop_all] and [cleanup_all] each end by writing one log record that no
    other code writes; the calls made during a run are read off the log. *)
Inductive call := StopAll | CleanupAll.

Definition call_of (r : level * message) : option call :=
  match r.2 with
  | MsgAllStopped => Some StopAll
  | MsgAllCleaned => Some CleanupAll
  | _ => None
  end.

Definition calls (l : list (level * message)) : list call := omap call_of l.

(** The part of the log of [w'] written since [w]. *)
Definition log_since (w w' : world) : list (level * message) :=
  drop (length (log w)) (log w').

(** Between [w] and [w'] the log was only extended, and the records added
    show the calls [cs]. *)
Definition made_calls (w w' : world) (cs : list call) : Prop :=
  ∃ l, log w' = log w ++ l ∧ calls l = cs.

(** ** States a manager can be in

    A manager is created by [LoadGeneratorManager.__init__] and changed by its
    methods and its signal handler, while worker threads take steps in
    between. *)
Inductive reachable : state → Prop :=
  | reach_init w :
      reachable (LoadGeneratorManager_init, w)
  | reach_add workload_type intensity st :
      reachable st → reachable (add_workload workload_type intensity st).2
  | reach_start_all st :
      reachable st → reachable (start_all st)
  | reach_stop_all js st :
      reachable st → reachable (stop_all js st)
  | reach_cleanup_all rm st :
      reachable st → reachable (cleanup_all rm st)
  | reach_signal signum js st :
      reachable st → reachable (signal_handler signum js st)
  | reach_threads s m w :
      reachable (m, w) → reachable (m, run_sched s w).

(** ** Concrete worlds used as instances *)

(** An empty world on a machine with two processors. *)
Definition empty_world : world := World [] [] ∅ ∅ ∅ ∅ ∅ [] 2.

(** A manager holding one mixed, low-intensity workload, not started. *)
Definition mixed_state : state :=
  (add_workload "mixed" "low" (LoadGeneratorManager_init, empty_world)).2.

(** Readings for one worker step in which nothing raises. *)
Definition sample_env : env := Env 1700000000 5 NoFault 200 1 2.

(** One storage workload, started, whose thread has completed one iteration. *)
Definition storage_ran : world :=
  run_sched [(0, sample_env); (0, sample_env)]
    (start_all (add_workload "storage" "low" (LoadGeneratorManager_init, empty_world)).2).2.

(** One network workload, started, with its first thread inside the [for]
    loop. *)
Definition network_ran : world :=
  run_sched [(0, sample_env)]
    (start_all (add_workload "network" "low" (LoadGeneratorManager_init, empty_world)).2).2.

(** One CPU workload of high intensity, started. *)
Definition cpu_started : state :=
  start_all (add_workload "cpu" "high" (LoadGeneratorManager_init, empty_world)).2.

(** A run of three seconds of one CPU workload. *)
Definition run_cfg : settings := Settings "cpu" "high" 3 8000.

(** Nothing happens but the passing of time; no worker is scheduled. *)
Definition quiet_env : main_env :=
  MainEnv 0 (λ _, Tick [] (Slept 0) (λ _, [])) (λ _, []) (λ _, false).

(** SIGTERM (15) is delivered during the second sleep. *)
Definition sigterm_env : main_env :=
  MainEnv 0 (λ i, Tick [] (match i with 1 => Signal 15 | _ => Slept 0 end) (λ _, []))
    (λ _, []) (λ _, false).

(** What a run shows: the exception leaving [main] and the calls made on the
    manager. *)
Definition observed (cfg : settings) (env : main_env) (w : world)
    : option (option exn * list call) :=
  (λ x, (x.1, calls (log_since w x.2.2))) <$> main cfg env w.

(** One memory workload, started, whose thread has passed the loop test and
    is about to allocate. *)
Definition memory_entered : world :=
  run_sched [(0, sample_env)]
    (start_all (add_workload "memory" "low" (LoadGeneratorManager_init, empty_world)).2).2.

(** * Further vocabulary: workers, counters, flags *)

(** The workload type under which a worker reports. *)
Definition label_of (tg : target) : string :=
  match tg with
  | cpu_stress _ => "cpu"
  | memory_stress => "memory"
  | network_stress _ => "network"
  | storage_stress => "storage"
  end.

(** The value of the error counter for a workload type. *)
Definition errors_total (l : string) (w : world) : nat := ERROR_COUNT w !!! l.

(** The errors counted for the four kinds of worker together. *)
Definition all_errors (w : world) : nat :=
  errors_total "cpu" w + errors_total "memory" w +
  errors_total "network" w + errors_total "storage" w.

(** The number of records of level ERROR in the log. *)
Definition error_records (w : world) : nat :=
  length (filter (λ r, r.1 = ERROR) (log w)).

(** [th'] is the thread [th] later on: same target, same generator, still a
    daemon, and still dead if it was dead. *)
Definition thread_kept (th th' : Thread) : Prop :=
  th_target th' = th_target th ∧ th_self th' = th_self th ∧ daemon th' = daemon th ∧
  (th_pc th = Exited → th_pc th' = Exited).

(** Every thread of [w] is still in the table of [w'], under its identity. *)
Definition threads_kept (w w' : world) : Prop :=
  ∀ t th, thread_table w !! t = Some th →
    ∃ th', thread_table w' !! t = Some th' ∧ thread_kept th th'.

(** [self.config["memory_mb"] * 1024 * 1024] *)
Definition chunk_size (o : oid) (w : world) : Z := (obj_memory_mb o w * 1024 * 1024)%Z.

(** The generator is told to stop and none of its workers is inside an
    iteration. *)
Definition quiescent (o : oid) (w : world) : Prop :=
  obj_running o w = false ∧
  ∀ t th, thread_table w !! t = Some th → th_self th = o →
    th_pc th = AtTop ∨ th_pc th = Exited.

(** The threads that [start] creates for one object, its children apart. *)
Definition obj_units (o : oid) (w : world) : nat :=
  match heap w !! o with
  | Some g => units (fields g) w
  | None => 0
  end.

(** [g'] is [g] up to its running flag and its list of threads. *)
Definition same_object (g g' : WorkloadGenerator) : Prop :=
  name g' = name g ∧ intensity g' = intensity g ∧ config g' = config g ∧
  fields g' = fields g.

(** What [start] leaves alone: the objects up to flag and threads, and the
    number of processors. *)
Definition start_frame (w w' : world) : Prop :=
  Forall2 same_object (heap w) (heap w') ∧ cpu_count w' = cpu_count w.

(** The name a class gives to its instances. *)
Definition class_name (c : workload_class) : string :=
  match c with
  | ClsCPU => "CPU"
  | ClsMemory => "Memory"
  | ClsNetwork => "Network"
  | ClsStorage => "Storage"
  | ClsMixed => "Mixed"
  end.

(** Whether the fields are those of an instance of the class. *)
Definition is_instance (c : workload_class) (s : subclass) : Prop :=
  match c, s with
  | ClsCPU, CPUWorkload => True
  | ClsMemory, MemoryWorkload _ => True
  | ClsNetwork, NetworkWorkload _ => True
  | ClsStorage, StorageWorkload _ => True
  | ClsMixed, MixedWorkload _ => True
  | _, _ => False
  end.

(** The rows of [intensity_levels]. *)
Definition profile_rows : list profile :=
  [Profile 20 100 30; Profile 50 250 60; Profile 80 500 120; Profile 70 300 90].

(** A thread as [start] creates it for a generator among [owners]: a daemon,
    about to test the running flag for the first time. *)
Definition new_worker (owners : list oid) (th : Thread) : Prop :=
  daemon th = true ∧ th_pc th = AtTop ∧ th_self th ∈ owners.
(** The position of a thread fits its target: only the network worker walks
    the [for endpoint] loop, the others run their body in one piece. *)
Definition wf_thread (th : Thread) : Prop :=
  match th_pc th, th_target th with
  | InBody, network_stress _ => False
  | NetFor _, network_stress _ => True
  | NetFor _, _ => False
  | _, _ => True
  end.

(** ** More concrete worlds *)

(** One CPU workload of high intensity, added but not started. *)
Definition cpu_added : state :=
  (add_workload "cpu" "high" (LoadGeneratorManager_init, empty_world)).2.

(** The storage workload of [storage_ran] after a [stop] whose join times
    out at once: the flag is cleared, the worker stands at the loop test. *)
Definition storage_stopping : world := stop (λ _, []) 0 storage_ran.

(** The same after a [stop] during whose join the worker exits. *)
Definition storage_stopped : world := stop (λ _, [(0, sample_env)]) 0 storage_ran.

(** One storage workload, started, whose worker has passed the loop test and
    is about to write its first file. *)
Definition storage_entered : world :=
  run_sched [(0, sample_env)]
    (start_all (add_workload "storage" "low" (LoadGeneratorManager_init, empty_world)).2).2.

(** Readings for a step in which writing the file raises. *)
Definition write_fault_env : env := Env 1700000000 5 WriteFault 200 1 2.

(** The manager of the storage workload of [storage_ran]. *)
Definition storage_manager : LoadGeneratorManager :=
  (start_all (add_workload "storage" "low" (LoadGeneratorManager_init, empty_world)).2).1.

(** * Verification *)

(** ** Intensity profiles and the workload table *)

Lemma intensity_levels_unknown (label : string) :
  label ∉ ["low"; "medium"; "high"; "custom"] → intensity_levels !! label = None.
Proof.
  intros H. unfold intensity_levels.
  rewrite !lookup_insert_ne, lookup_empty; [done | | | |];
    intros <-; apply H; set_solver.
Qed.

Lemma workload_map_unknown (workload_type : string) :
  workload_type ∉ ["cpu"; "memory"; "network"; "storage"; "mixed"] →
  workload_map !! workload_type = None.
Proof.
  intros H. unfold workload_map.
  rewrite !lookup_insert_ne, lookup_empty; [done | | | | |];
    intros <-; apply H; set_solver.
Qed.

Lemma workload_map_known (workload_type : string) :
  workload_type ∈ ["cpu"; "memory"; "network"; "storage"; "mixed"] →
  is_Some (workload_map !! workload_type).
Proof.
  intros H. repeat (apply elem_of_cons in H as [-> | H]; [by eexists |]).
  by apply elem_of_nil in H.
Qed.

(** C5: the profile of a generator is a total function of its intensity
    label; each of the four labels of the table resolves to its own row, and
    every other label resolves to exactly the row of "medium". *)
Theorem C5_intensity_profile_lookup (nm label : string) (s : subclass) :
  config (WorkloadGenerator_init nm label s) = config_of label ∧
  config_of "low" = Profile 20 100 30 ∧
  config_of "medium" = Profile 50 250 60 ∧
  config_of "high" = Profile 80 500 120 ∧
  config_of "custom" = Profile 70 300 90 ∧
  (label ∉ ["low"; "medium"; "high"; "custom"] → config_of label = config_of "medium").
Proof.
  repeat split; try reflexivity.
  intros H. unfold config_of, dict_get.
  by rewrite (intensity_levels_unknown label H).
Qed.

Lemma C5_intensity_profile_lookup_witness :
  ("extreme" ∉ ["low"; "medium"; "high"; "custom"]) ∧
  config_of "extreme" = config_of "medium".
Proof.
  assert (H : "extreme" ∉ ["low"; "medium"; "high"; "custom"]).
  { intros H. repeat (apply elem_of_cons in H as [H | H]; [discriminate H |]).
    by apply elem_of_nil in H. }
  split; [exact H |].
  exact (proj2 (proj2 (proj2 (proj2 (proj2
    (C5_intensity_profile_lookup "CPU" "extreme" CPUWorkload))))) H).
Defined.

(** C4: for a workload type outside the five keys of [workload_map],
    [add_workload] raises [ValueError] and leaves the manager and the world
    exactly as they were: no generator object was created, no thread started,
    the workload mapping is the same. *)
Theorem C4_add_unknown_type_raises (workload_type intensity : string) (st : state) :
  workload_type ∉ ["cpu"; "memory"; "network"; "storage"; "mixed"] →
  add_workload workload_type intensity st = (Some (ValueError workload_type), st).
Proof.
  intros H. destruct st as [m w]. unfold add_workload.
  by rewrite (workload_map_unknown workload_type H).
Qed.

Lemma C4_add_unknown_type_raises_witness :
  ("gpu" ∉ ["cpu"; "memory"; "network"; "storage"; "mixed"]) ∧
  add_workload "gpu" "high" (LoadGeneratorManager_init, World [] [] ∅ ∅ ∅ ∅ ∅ [] 4)
  = (Some (ValueError "gpu"), (LoadGeneratorManager_init, World [] [] ∅ ∅ ∅ ∅ ∅ [] 4)).
Proof.
  assert (H : "gpu" ∉ ["cpu"; "memory"; "network"; "storage"; "mixed"]).
  { intros H. repeat (apply elem_of_cons in H as [H | H]; [discriminate H |]).
    by apply elem_of_nil in H. }
  split; [exact H |].
  exact (C4_add_unknown_type_raises "gpu" "high" _ H).
Defined.

(** ** The objects a constructor creates *)

(** A new mixed workload holds four children, one of each of the other
    classes, in the order CPU, Memory, Network, Storage: the nesting of mixed
    workloads that method dispatch has to follow is 1. *)
Lemma MixedWorkload_new_children intensity w :
  let '(o, w') := MixedWorkload_new intensity w in
  o = length (heap w) ∧
  (fields <$> heap w' !! o) = Some (MixedWorkload [o + 1; o + 2; o + 3; o + 4]) ∧
  (fields <$> heap w' !! (o + 1)) = Some CPUWorkload ∧
  (fields <$> heap w' !! (o + 2)) = Some (MemoryWorkload []) ∧
  (fields <$> heap w' !! (o + 3)) = Some (NetworkWorkload default_endpoints) ∧
  (fields <$> heap w' !! (o + 4)) = Some (StorageWorkload []).
Proof.
  simpl. rewrite !length_app. simpl.
  replace (length (heap w) + 1 + 1 + 1) with (length (heap w) + 3) by lia.
  replace (length (heap w) + 1 + 1) with (length (heap w) + 2) by lia.
  replace (length (heap w) + 3 + 1) with (length (heap w) + 4) by lia.
  split; [done |].
  rewrite <- !app_assoc. simpl.
  rewrite list_lookup_alter_eq, !list_lookup_alter_ne by lia.
  rewrite !lookup_app_r by lia.
  replace (length (heap w) - length (heap w)) with 0 by lia.
  replace (length (heap w) + 1 - length (heap w)) with 1 by lia.
  replace (length (heap w) + 2 - length (heap w)) with 2 by lia.
  replace (length (heap w) + 3 - length (heap w)) with 3 by lia.
  replace (length (heap w) + 4 - length (heap w)) with 4 by lia.
  done.
Qed.

(** Every generator starts idle: not running, no thread, no artifact. *)
Lemma WorkloadGenerator_init_idle nm intensity s :
  running (WorkloadGenerator_init nm intensity s) = false ∧
  threads (WorkloadGenerator_init nm intensity s) = [].
Proof. done. Qed.

(** ** Frame lemmas: threads, names and classes are never touched *)

Lemma same_class_refl s : same_class s s.
Proof. by destruct s. Qed.

Lemma same_class_trans s1 s2 s3 : same_class s1 s2 → same_class s2 s3 → same_class s1 s3.
Proof. destruct s1, s2, s3; simpl; try done; congruence. Qed.

Global Instance keeps_refl : Reflexive keeps.
Proof. intros g. repeat split. apply same_class_refl. Qed.

Global Instance keeps_trans : Transitive keeps.
Proof.
  intros g1 g2 g3 (?&?&?&?&?) (?&?&?&?&?).
  repeat split; try congruence. eauto using same_class_trans.
Qed.

Global Instance frame_refl : Reflexive frame.
Proof. intros w. unfold frame. reflexivity. Qed.

Global Instance frame_trans : Transitive frame.
Proof. intros w1 w2 w3. unfold frame. intros H1 H2. by etrans. Qed.

Create HintDb frame discriminated.

Lemma frame_obj_update_at w0 w o f :
  (∀ g, heap w !! o = Some g → keeps g (f g)) → frame w0 w → frame w0 (obj_update o f w).
Proof.
  intros Hf H. unfold frame, obj_update. simpl.
  apply Forall2_alter_r; [done |]. intros x y _ Hy Hxy. etrans; [exact Hxy | by apply Hf].
Qed.

Lemma frame_obj_update w0 w o f :
  (∀ g, keeps g (f g)) → frame w0 w → frame w0 (obj_update o f w).
Proof. intros Hf. apply frame_obj_update_at. auto. Qed.

Lemma keeps_set_running b g : keeps g (set_running b g).
Proof. repeat split. apply same_class_refl. Qed.

Lemma frame_heap_eq w0 w w' : heap w' = heap w → frame w0 w → frame w0 w'.
Proof. unfold frame. by intros ->. Qed.

Lemma frame_logger w0 w lv m : frame w0 w → frame w0 (logger lv m w).
Proof. by apply frame_heap_eq. Qed.
Lemma frame_requests_inc w0 w l : frame w0 w → frame w0 (requests_inc l w).
Proof. by apply frame_heap_eq. Qed.
Lemma frame_errors_inc w0 w l : frame w0 w → frame w0 (errors_inc l w).
Proof. by apply frame_heap_eq. Qed.
Lemma frame_duration_observe w0 w l v : frame w0 w → frame w0 (duration_observe l v w).
Proof. by apply frame_heap_eq. Qed.
Lemma frame_usage_set w0 w r l v : frame w0 w → frame w0 (usage_set r l v w).
Proof. by apply frame_heap_eq. Qed.
Lemma frame_upd_fs w0 w f : frame w0 w → frame w0 (upd_fs f w).
Proof. by apply frame_heap_eq. Qed.
Lemma frame_set_pc w0 w t p : frame w0 w → frame w0 (set_pc t p w).
Proof. by apply frame_heap_eq. Qed.

Lemma frame_set_running w0 w o b : frame w0 w → frame w0 (obj_update o (set_running b) w).
Proof. apply frame_obj_update, keeps_set_running. Qed.

Lemma frame_append_chunk w0 w o c : frame w0 w → frame w0 (append_chunk o c w).
Proof.
  apply frame_obj_update. intros g. destruct (fields g) eqn:E; try reflexivity.
  repeat split. simpl. by rewrite E.
Qed.

Lemma frame_append_temp_file w0 w o f : frame w0 w → frame w0 (append_temp_file o f w).
Proof.
  apply frame_obj_update. intros g. destruct (fields g) eqn:E; try reflexivity.
  repeat split. simpl. by rewrite E.
Qed.

Global Hint Resolve frame_logger frame_requests_inc frame_errors_inc frame_duration_observe
  frame_usage_set frame_upd_fs frame_set_pc frame_set_running frame_append_chunk
  frame_append_temp_file : frame.

Lemma frame_thread_step w0 w t e : frame w0 w → frame w0 (thread_step t e w).
Proof.
  intros H. unfold thread_step, cpu_body, memory_body, storage_body, network_for, network_after.
  repeat case_match; auto 10 with frame.
Qed.

Lemma frame_foldl {A} (f : world → A → world) (l : list A) w0 w :
  (∀ w a, frame w0 w → frame w0 (f w a)) → frame w0 w → frame w0 (foldl f w l).
Proof. intros Hf. revert w. induction l; simpl; auto. Qed.

Lemma frame_run_sched w0 w s : frame w0 w → frame w0 (run_sched s w).
Proof. apply frame_foldl. intros. by apply frame_thread_step. Qed.

Lemma frame_WorkloadGenerator_stop w0 w js o :
  frame w0 w → frame w0 (WorkloadGenerator_stop js o w).
Proof.
  intros H. unfold WorkloadGenerator_stop. case_match; [| done].
  apply frame_logger, frame_foldl; [| by apply frame_set_running].
  intros ? ? ?. case_match; [| done]. by apply frame_run_sched.
Qed.

Lemma frame_stop_n n w0 w js o : frame w0 w → frame w0 (stop_n n js o w).
Proof.
  revert o w. induction n; intros o w H; simpl;
    repeat case_match; auto using frame_WorkloadGenerator_stop.
  apply frame_foldl; auto using frame_WorkloadGenerator_stop.
Qed.

Lemma frame_remove_temp_file w0 w rm f : frame w0 w → frame w0 (remove_temp_file rm f w).
Proof. intros H. unfold remove_temp_file. repeat case_match; auto with frame. Qed.

Lemma heap_remove_temp_file rm f w : heap (remove_temp_file rm f w) = heap w.
Proof. unfold remove_temp_file. by repeat case_match. Qed.

Lemma foldl_inv {A B C} (f : A → B → A) (g : A → C) (l : list B) (a : A) :
  (∀ a b, g (f a b) = g a) → g (foldl f a l) = g a.
Proof. intros H. revert a. induction l; simpl; intros; [done |]. by rewrite IHl. Qed.

Lemma keeps_clear_chunks g cs :
  fields g = MemoryWorkload cs → keeps g (set_fields (MemoryWorkload []) g).
Proof. intros E. repeat split. simpl. by rewrite E. Qed.

Lemma keeps_clear_files g fl :
  fields g = StorageWorkload fl → keeps g (set_fields (StorageWorkload []) g).
Proof. intros E. repeat split. simpl. by rewrite E. Qed.

Lemma heap_foldl_remove rm fl w :
  heap (foldl (λ w f, remove_temp_file rm f w) w fl) = heap w.
Proof. apply (foldl_inv _ heap). intros. apply heap_remove_temp_file. Qed.

Lemma frame_cleanup_leaf w0 w rm o g :
  heap w !! o = Some g → frame w0 w →
  frame w0 (match fields g with
            | MemoryWorkload _ => obj_update o (set_fields (MemoryWorkload [])) w
            | StorageWorkload fl =>
              foldl (λ w f, remove_temp_file rm f w) w fl
                |> obj_update o (set_fields (StorageWorkload []))
            | _ => w
            end).
Proof.
  intros Hg H. destruct (fields g) eqn:E; try done.
  - apply frame_obj_update_at; [| done]. intros g' ?; simplify_eq.
    eauto using keeps_clear_chunks.
  - apply frame_obj_update_at.
    + rewrite heap_foldl_remove. intros g' ?; simplify_eq. eauto using keeps_clear_files.
    + apply frame_foldl; auto using frame_remove_temp_file.
Qed.

Lemma frame_cleanup_n n w0 w rm o : frame w0 w → frame w0 (cleanup_n n rm o w).
Proof.
  revert o w. induction n; intros o w H; simpl.
  - destruct (heap w !! o) as [g|] eqn:Hg; [| done].
    pose proof (frame_cleanup_leaf w0 w rm o g Hg H) as L. by destruct (fields g).
  - destruct (heap w !! o) as [g|] eqn:Hg; [| done].
    pose proof (frame_cleanup_leaf w0 w rm o g Hg H) as L.
    destruct (fields g); try done. apply frame_foldl; auto.
Qed.

(** The observations that [frame] guarantees. *)
Lemma frame_obj_threads w w' o : frame w w' → obj_threads o w' = obj_threads o w.
Proof.
  unfold frame, obj_threads. intros H.
  destruct (heap w !! o) as [g|] eqn:E.
  - eapply Forall2_lookup_l in E as (g' & Hg' & Hk); [| exact H].
    rewrite Hg'. apply Hk.
  - apply Forall2_length in H. apply lookup_ge_None in E.
    rewrite (proj2 (lookup_ge_None _ _)); [done | lia].
Qed.

Lemma frame_lookup w w' o g :
  frame w w' → heap w !! o = Some g → ∃ g', heap w' !! o = Some g' ∧ keeps g g'.
Proof. intros H E. eapply Forall2_lookup_l in E; [exact E | exact H]. Qed.

(** ** Stopping an idle generator; the thread list across stop, cleanup, start *)

Lemma lookup_obj_update_ne o c f w :
  o ≠ c → heap (obj_update c f w) !! o = heap w !! o.
Proof. intros H. simpl. by apply list_lookup_alter_ne. Qed.

Lemma lookup_obj_update_eq o f w :
  heap (obj_update o f w) !! o = f <$> heap w !! o.
Proof. simpl. apply list_lookup_alter_eq. Qed.

Lemma frame_mark_stopped w0 w o : frame w0 w → frame w0 (mark_stopped o w).
Proof. intros H. unfold mark_stopped. case_match; auto with frame. Qed.

Lemma stop_base_no_threads js o w :
  obj_threads o w = [] → WorkloadGenerator_stop js o w = mark_stopped o w.
Proof.
  unfold obj_threads, WorkloadGenerator_stop, mark_stopped.
  destruct (heap w !! o) as [g|]; [| done]. by intros ->.
Qed.

Lemma stop_0_no_threads js o w :
  obj_threads o w = [] → stop_n 0 js o w = mark_stopped o w.
Proof.
  intros H. simpl. rewrite (stop_base_no_threads js o w H).
  unfold mark_stopped. destruct (heap w !! o) as [g|]; [| done]. by destruct (fields g).
Qed.

Lemma foldl_stop_0_no_threads js ws w :
  (∀ c, c ∈ ws → obj_threads c w = []) →
  foldl (λ w c, stop_n 0 js c w) w ws = foldl (λ w c, mark_stopped c w) w ws.
Proof.
  revert w. induction ws as [|c ws IH]; intros w H; [done |]. cbn [foldl].
  rewrite stop_0_no_threads by (apply H; set_solver).
  apply IH. intros c' Hc'.
  rewrite (frame_obj_threads w); [apply H; set_solver |].
  by apply frame_mark_stopped.
Qed.

Lemma thread_table_mark_stopped o w : thread_table (mark_stopped o w) = thread_table w.
Proof. unfold mark_stopped. by case_match. Qed.

Lemma obj_running_mark_stopped_same o w g :
  heap w !! o = Some g → obj_running o (mark_stopped o w) = false.
Proof.
  intros H. unfold mark_stopped, obj_running. rewrite H. simpl.
  by rewrite list_lookup_alter_eq, H.
Qed.

Lemma obj_running_mark_stopped o c w :
  obj_running o w = false → obj_running o (mark_stopped c w) = false.
Proof.
  intros H. unfold mark_stopped. destruct (heap w !! c) as [gc|] eqn:Hc; [| done].
  unfold obj_running in *. simpl.
  destruct (decide (c = o)) as [->|Hne].
  - by rewrite list_lookup_alter_eq, Hc.
  - by rewrite list_lookup_alter_ne.
Qed.

(** C9: [stop] on a generator that was never started joins no thread: for
    every join oracle the result is the world in which the running flag of
    the generator (and of each child of a mixed one) is cleared and the
    "Stopped" records are logged; the flag reads False afterwards and no
    thread has moved.  [stop] is a total function, so the call returns. *)
Theorem C9_stop_never_started (js : tid → schedule) (o : oid) (w : world)
    (g : WorkloadGenerator) :
  heap w !! o = Some g →
  never_started o w →
  stop js o w = foldl (λ w c, mark_stopped c w) (mark_stopped o w) (obj_children o w) ∧
  obj_running o (stop js o w) = false ∧
  thread_table (stop js o w) = thread_table w.
Proof.
  intros Hg [Hown Hch].
  assert (E : stop js o w
              = foldl (λ w c, mark_stopped c w) (mark_stopped o w) (obj_children o w)).
  { unfold stop, obj_children in *. simpl. rewrite Hg in *.
    rewrite (stop_base_no_threads js o w Hown).
    destruct (fields g) as [| | | |ws]; try done.
    apply foldl_stop_0_no_threads. intros c Hc.
    rewrite (frame_obj_threads w); [by apply Hch |]. by apply frame_mark_stopped. }
  rewrite E. split; [done |]. split.
  - generalize (obj_children o w). intros ws.
    assert (H0 : obj_running o (mark_stopped o w) = false)
      by eauto using obj_running_mark_stopped_same.
    revert H0. generalize (mark_stopped o w). induction ws; simpl; intros; [done |].
    by apply IHws, obj_running_mark_stopped.
  - rewrite (foldl_inv _ thread_table) by (intros; apply thread_table_mark_stopped).
    apply thread_table_mark_stopped.
Qed.

Lemma C9_stop_never_started_witness :
  stop (λ _, []) 0 mixed_state.2
  = foldl (λ w c, mark_stopped c w) (mark_stopped 0 mixed_state.2) [1; 2; 3; 4] ∧
  obj_running 0 (stop (λ _, []) 0 mixed_state.2) = false ∧
  thread_table (stop (λ _, []) 0 mixed_state.2) = thread_table mixed_state.2.
Proof.
  apply (C9_stop_never_started (λ _, []) 0 mixed_state.2
           (Generator "Mixed" "low" false [] (Profile 20 100 30) (MixedWorkload [1; 2; 3; 4]))).
  - reflexivity.
  - split; [reflexivity |].
    intros c Hc. change (obj_children 0 mixed_state.2) with [1; 2; 3; 4] in Hc.
    repeat (apply elem_of_cons in Hc as [-> | Hc]; [reflexivity |]).
    by apply elem_of_nil in Hc.
Defined.

(** *** What [start] does to the thread lists *)

Lemma heap_start_base_ne o c w : o ≠ c → heap (WorkloadGenerator_start c w) !! o = heap w !! o.
Proof.
  intros H. unfold WorkloadGenerator_start. case_match; [| done].
  simpl. by apply list_lookup_alter_ne.
Qed.

Lemma heap_spawn_ne tg o c w : o ≠ c → heap (spawn tg c w) !! o = heap w !! o.
Proof. intros H. unfold spawn. simpl. by apply list_lookup_alter_ne. Qed.

Lemma heap_foldl_spawn_ne {A} (tg : A → target) (l : list A) o c w :
  o ≠ c → heap (foldl (λ w i, spawn (tg i) c w) w l) !! o = heap w !! o.
Proof.
  intros H. apply (foldl_inv _ (λ w, heap w !! o)). intros. by apply heap_spawn_ne.
Qed.

Lemma heap_start_0_ne o c w : o ≠ c → heap (start_n 0 c w) !! o = heap w !! o.
Proof.
  intros H. simpl. destruct (heap w !! c) as [gc|]; [| done].
  destruct (fields gc);
    rewrite ?heap_foldl_spawn_ne, ?heap_spawn_ne by done; by apply heap_start_base_ne.
Qed.

Lemma spawn_threads tg o w g :
  heap w !! o = Some g →
  heap (spawn tg o w) !! o = Some (set_threads (threads g ++ [length (thread_table w)]) g) ∧
  length (thread_table (spawn tg o w)) = S (length (thread_table w)).
Proof.
  intros H. unfold spawn. simpl. rewrite list_lookup_alter_eq, H. split; [done |].
  rewrite length_app. simpl. lia.
Qed.

Lemma foldl_spawn_threads {A} (tg : A → target) (l : list A) o w g :
  heap w !! o = Some g →
  heap (foldl (λ w i, spawn (tg i) o w) w l) !! o
  = Some (set_threads (threads g ++ seq (length (thread_table w)) (length l)) g).
Proof.
  revert w g. induction l as [|a l IH]; intros w g H; simpl.
  - rewrite app_nil_r. by destruct g.
  - destruct (spawn_threads (tg a) o w g H) as [H1 H2].
    rewrite (IH _ _ H1), H2. simpl. by rewrite <- app_assoc.
Qed.

Lemma start_base_lookup o w g :
  heap w !! o = Some g →
  heap (WorkloadGenerator_start o w) !! o = Some (set_running true g) ∧
  thread_table (WorkloadGenerator_start o w) = thread_table w ∧
  cpu_count (WorkloadGenerator_start o w) = cpu_count w.
Proof.
  intros H. unfold WorkloadGenerator_start. rewrite H. simpl.
  by rewrite list_lookup_alter_eq, H.
Qed.

Lemma start_0_mixed_own o c w g ws :
  heap w !! o = Some g → fields g = MixedWorkload ws →
  ∃ g', heap (start_n 0 c w) !! o = Some g' ∧ threads g' = threads g ∧
        fields g' = MixedWorkload ws.
Proof.
  intros Hg Hf. destruct (decide (o = c)) as [<-|Hne].
  - simpl. rewrite Hg, Hf. destruct (start_base_lookup o w g Hg) as (-> & _). eauto.
  - rewrite heap_start_0_ne by done. eauto.
Qed.

Lemma foldl_start_0_mixed_own o cs w g ws :
  heap w !! o = Some g → fields g = MixedWorkload ws →
  ∃ g', heap (foldl (λ w c, start_n 0 c w) w cs) !! o = Some g' ∧
        threads g' = threads g ∧ fields g' = MixedWorkload ws.
Proof.
  revert w g. induction cs as [|c cs IH]; intros w g Hg Hf; cbn [foldl]; [eauto |].
  destruct (start_0_mixed_own o c w g ws Hg Hf) as (g1 & H1 & Ht & Hf1).
  destruct (IH _ _ H1 Hf1) as (g2 & H2 & Ht2 & Hf2).
  exists g2. split; [done |]. split; congruence.
Qed.

Lemma start_n_S n o w :
  start_n (S n) o w
  = match heap w !! o with
    | None => w
    | Some g =>
      let w := WorkloadGenerator_start o w in
      match fields g with
      | CPUWorkload => foldl (λ w i, spawn (cpu_stress i) o w) w (seq 0 (cpu_count w))
      | MemoryWorkload _ => spawn memory_stress o w
      | NetworkWorkload _ => foldl (λ w i, spawn (network_stress i) o w) w (seq 0 3)
      | StorageWorkload _ => spawn storage_stress o w
      | MixedWorkload ws => foldl (λ w c, start_n n c w) w ws
      end
    end.
Proof. reflexivity. Qed.

Lemma start_threads o w g :
  heap w !! o = Some g →
  obj_threads o (start o w)
  = threads g ++ seq (length (thread_table w)) (units (fields g) w).
Proof.
  intros Hg. unfold start, obj_threads. rewrite start_n_S, Hg. cbv zeta.
  destruct (start_base_lookup o w g Hg) as (H1 & H2 & H3).
  destruct (fields g) as [| | | |ws] eqn:Hf; cbn [units].
  - rewrite (foldl_spawn_threads cpu_stress _ _ _ _ H1), length_seq, H2, H3. done.
  - destruct (spawn_threads memory_stress o _ _ H1) as [-> _]. by rewrite H2.
  - rewrite (foldl_spawn_threads network_stress _ _ _ _ H1), H2. done.
  - destruct (spawn_threads storage_stress o _ _ H1) as [-> _]. by rewrite H2.
  - rewrite app_nil_r.
    destruct (foldl_start_0_mixed_own o ws _ _ ws H1 Hf) as (g' & -> & Ht & _).
    exact Ht.
Qed.

(** C10: neither [stop] nor [cleanup] changes [self.threads] of a generator,
    and a later [start] appends its new threads to the retained list: after
    stop and cleanup the list is the one from before, and after a further
    start it is that list followed by the identities of the threads just
    created. *)
Theorem C10_threads_retained (js : tid → schedule) (rm : string → bool) (o : oid)
    (w : world) (g : WorkloadGenerator) :
  heap w !! o = Some g →
  let w1 := stop js o w in
  let w2 := cleanup rm o w1 in
  obj_threads o w1 = threads g ∧
  obj_threads o w2 = threads g ∧
  obj_threads o (cleanup rm o w) = threads g ∧
  obj_threads o (start o w2)
  = threads g ++ seq (length (thread_table w2)) (units (fields g) w2).
Proof.
  intros Hg w1 w2.
  assert (F1 : frame w w1) by (apply frame_stop_n; reflexivity).
  assert (F2 : frame w w2) by (apply frame_cleanup_n; exact F1).
  assert (F3 : frame w (cleanup rm o w)) by (apply frame_cleanup_n; reflexivity).
  assert (T : obj_threads o w = threads g) by (unfold obj_threads; by rewrite Hg).
  rewrite (frame_obj_threads w w1), (frame_obj_threads w w2),
    (frame_obj_threads w (cleanup rm o w)) by done.
  repeat split; try done.
  destruct (frame_lookup w w2 o g F2 Hg) as (g2 & Hg2 & K).
  rewrite (start_threads o w2 g2 Hg2).
  destruct K as (_ & _ & -> & _ & Hc). f_equal. f_equal.
  destruct (fields g), (fields g2); simpl in *; done.
Qed.

Lemma C10_threads_retained_witness :
  let w1 := stop (λ _, [(0, sample_env)]) 0 storage_ran in
  let w2 := cleanup (λ _, false) 0 w1 in
  obj_threads 0 w1 = [0] ∧
  obj_threads 0 w2 = [0] ∧
  obj_threads 0 (cleanup (λ _, false) 0 storage_ran) = [0] ∧
  obj_threads 0 (start 0 w2) = [0; 1].
Proof.
  exact (C10_threads_retained (λ _, [(0, sample_env)]) (λ _, false) 0 storage_ran _ eq_refl).
Defined.

(** ** The manager with no workload *)

Lemma dict_set_nonempty {V} (k : string) (v : V) d : dict_set k v d ≠ [].
Proof. destruct d as [|[k' v'] d]; simpl; [done |]. by case_decide. Qed.

(** A manager that holds no workload is not running. *)
Lemma reachable_empty_not_running st :
  reachable st → mgr_workloads st.1 = [] → mgr_running st.1 = false.
Proof.
  induction 1 as [w|wt i [m w] H IH|[m w] H IH|js [m w] H IH|rm [m w] H IH
                 |sg js [m w] H IH|s m w H IH]; simpl in *; try done.
  - unfold add_workload. destruct (workload_map !! wt); [| exact IH].
    destruct (construct _ _ _). simpl. intros E. by apply dict_set_nonempty in E.
  - destruct (mgr_workloads m) eqn:E; simpl; [by rewrite E | done].
Qed.

(** C8: on a manager whose workload mapping is empty, [start_all] only writes
    the warning "No workloads configured": it raises nothing, the manager is
    unchanged, its running flag is False afterwards, and no thread has been
    created. *)
Theorem C8_start_all_empty (st : state) :
  reachable st →
  mgr_workloads st.1 = [] →
  start_all st = (st.1, logger WARNING MsgNoWorkloads st.2) ∧
  mgr_running (start_all st).1 = false ∧
  thread_table (start_all st).2 = thread_table st.2 ∧
  log (start_all st).2 = log st.2 ++ [(WARNING, MsgNoWorkloads)].
Proof.
  intros R E. pose proof (reachable_empty_not_running st R E) as Hr.
  destruct st as [m w]. simpl in *. rewrite E. done.
Qed.

Lemma C8_start_all_empty_witness :
  start_all (LoadGeneratorManager_init, empty_world)
  = (LoadGeneratorManager_init, logger WARNING MsgNoWorkloads empty_world) ∧
  mgr_running (start_all (LoadGeneratorManager_init, empty_world)).1 = false ∧
  thread_table (start_all (LoadGeneratorManager_init, empty_world)).2 = [] ∧
  log (start_all (LoadGeneratorManager_init, empty_world)).2 = [(WARNING, MsgNoWorkloads)].
Proof.
  apply (C8_start_all_empty (LoadGeneratorManager_init, empty_world)).
  - apply reach_init.
  - reflexivity.
Defined.

(** ** Cleanup *)

Lemma world_eta w :
  World (heap w) (thread_table w) (fs w) (LOAD_REQUESTS_TOTAL w) (LOAD_DURATION w)
        (RESOURCE_USAGE w) (ERROR_COUNT w) (log w) (cpu_count w) = w.
Proof. by destruct w. Qed.

Lemma list_alter_fixed {A} (f : A → A) (l : list A) i x :
  l !! i = Some x → f x = x → alter f i l = l.
Proof.
  intros H Hf. apply list_eq. intros j. destruct (decide (i = j)) as [<-|Hne].
  - by rewrite list_lookup_alter_eq, H; simpl; rewrite Hf.
  - by rewrite list_lookup_alter_ne.
Qed.

Lemma obj_update_fixed o f w g : heap w !! o = Some g → f g = g → obj_update o f w = w.
Proof.
  intros H Hf. unfold obj_update, upd_heap.
  rewrite (list_alter_fixed f _ _ _ H Hf). apply world_eta.
Qed.

Lemma cleanup_n_S n rm o w :
  cleanup_n (S n) rm o w
  = match heap w !! o with
    | None => w
    | Some g =>
      match fields g with
      | MemoryWorkload _ => obj_update o (set_fields (MemoryWorkload [])) w
      | StorageWorkload fl =>
        foldl (λ w f, remove_temp_file rm f w) w fl
          |> obj_update o (set_fields (StorageWorkload []))
      | MixedWorkload ws => foldl (λ w c, cleanup_n n rm c w) w ws
      | CPUWorkload | NetworkWorkload _ => w
      end
    end.
Proof. reflexivity. Qed.

(** Cleaning a generator that holds nothing changes nothing. *)
Lemma cleanup_0_clean rm o w : clean o w → cleanup_n 0 rm o w = w.
Proof.
  unfold clean, owned_chunks, recorded_files. simpl.
  destruct (heap w !! o) as [g|] eqn:Hg; [| done].
  destruct g as [nm it r ts cf fd]. simpl.
  destruct fd; intros [H1 H2]; simplify_eq; try done;
    by apply (obj_update_fixed _ _ _ _ Hg).
Qed.

Lemma cleanup_0_makes_clean rm o w : clean o (cleanup_n 0 rm o w).
Proof.
  unfold clean, owned_chunks, recorded_files. simpl.
  destruct (heap w !! o) as [g|] eqn:Hg; [| by rewrite Hg].
  destruct (fields g) eqn:Hf; simpl;
    rewrite ?list_lookup_alter_eq, ?heap_foldl_remove, ?Hg; simpl; by rewrite ?Hf.
Qed.

Lemma heap_cleanup_0_ne rm o c w : o ≠ c → heap (cleanup_n 0 rm c w) !! o = heap w !! o.
Proof.
  intros H. simpl. destruct (heap w !! c) as [gc|]; [| done].
  destruct (fields gc); try done.
  - by apply lookup_obj_update_ne.
  - rewrite lookup_obj_update_ne by done. by rewrite heap_foldl_remove.
Qed.

Lemma clean_cleanup_0 rm o c w : clean o w → clean o (cleanup_n 0 rm c w).
Proof.
  intros H. destruct (decide (o = c)) as [->|Hne]; [apply cleanup_0_makes_clean |].
  unfold clean, owned_chunks, recorded_files in *. by rewrite heap_cleanup_0_ne.
Qed.

Lemma clean_foldl_cleanup_0 rm o cs w :
  clean o w → clean o (foldl (λ w c, cleanup_n 0 rm c w) w cs).
Proof.
  revert w. induction cs as [|c cs IH]; intros w H; cbn [foldl]; [done |].
  by apply IH, clean_cleanup_0.
Qed.

Lemma foldl_cleanup_0_all_clean rm cs w :
  ∀ c, c ∈ cs → clean c (foldl (λ w c, cleanup_n 0 rm c w) w cs).
Proof.
  revert w. induction cs as [|c' cs IH]; intros w c Hc; [by apply elem_of_nil in Hc |].
  cbn [foldl]. destruct (decide (c ∈ cs)) as [Hin|Hnin]; [by apply IH |].
  apply elem_of_cons in Hc as [-> | ?]; [| done].
  apply clean_foldl_cleanup_0, cleanup_0_makes_clean.
Qed.

Lemma foldl_cleanup_0_clean rm cs w :
  (∀ c, c ∈ cs → clean c w) → foldl (λ w c, cleanup_n 0 rm c w) w cs = w.
Proof.
  induction cs as [|c cs IH]; intros H; cbn [foldl]; [done |].
  rewrite cleanup_0_clean by (apply H; set_solver). apply IH. intros; apply H; set_solver.
Qed.

Lemma cleanup_leaf_eq rm o w g :
  heap w !! o = Some g → (∀ ws, fields g ≠ MixedWorkload ws) →
  cleanup rm o w = cleanup_n 0 rm o w.
Proof.
  intros Hg Hm. unfold cleanup. rewrite cleanup_n_S. simpl. rewrite Hg.
  destruct (fields g); try done. by destruct (Hm workloads).
Qed.

(** C6: calling [cleanup] twice in a row leaves the same world as calling it
    once: the second call changes no object, removes no file and writes no
    log record, whatever the class of the generator and whatever state it is
    in. *)
Theorem C6_cleanup_idempotent (rm rm' : string → bool) (o : oid) (w : world) :
  cleanup rm' o (cleanup rm o w) = cleanup rm o w.
Proof.
  destruct (heap w !! o) as [g|] eqn:Hg.
  2: { unfold cleanup. rewrite !cleanup_n_S, Hg. by rewrite Hg. }
  assert (F : frame w (cleanup rm o w)) by (apply frame_cleanup_n; reflexivity).
  destruct (frame_lookup _ _ _ _ F Hg) as (g' & Hg' & K).
  destruct (fields g) as [| | | |ws] eqn:Hf.
  1-4: rewrite (cleanup_leaf_eq rm' o _ g' Hg');
       [| intros ws E; destruct K as (_&_&_&_&Hc); rewrite Hf, E in Hc; done];
       rewrite (cleanup_leaf_eq rm o w g Hg) by (rewrite Hf; done);
       apply cleanup_0_clean, cleanup_0_makes_clean.
  assert (fields g' = MixedWorkload ws) as Hf'.
  { destruct K as (_&_&_&_&Hc). rewrite Hf in Hc. destruct (fields g'); simpl in Hc; by subst. }
  unfold cleanup in *. rewrite (cleanup_n_S 0 rm' o), Hg', Hf'.
  rewrite (cleanup_n_S 0 rm o w), Hg, Hf.
  apply foldl_cleanup_0_clean. apply foldl_cleanup_0_all_clean.
Qed.

(** *** Files across cleanup *)

Lemma fs_remove_temp_file_mono rm f f' w :
  f ∉ fs w → f ∉ fs (remove_temp_file rm f' w).
Proof. unfold remove_temp_file. repeat case_match; simpl; set_solver. Qed.

Lemma fs_foldl_remove_mono rm f fl w :
  f ∉ fs w → f ∉ fs (foldl (λ w f, remove_temp_file rm f w) w fl).
Proof.
  revert w. induction fl as [|f' fl IH]; intros w H; cbn [foldl]; [done |].
  by apply IH, fs_remove_temp_file_mono.
Qed.

Lemma fs_remove_temp_file_gone rm f w : rm f = false → f ∉ fs (remove_temp_file rm f w).
Proof.
  intros H. unfold remove_temp_file. rewrite H.
  case_bool_decide; simpl; set_solver.
Qed.

Lemma fs_foldl_remove_gone rm f fl w :
  f ∈ fl → rm f = false → f ∉ fs (foldl (λ w f, remove_temp_file rm f w) w fl).
Proof.
  revert w. induction fl as [|f' fl IH]; intros w Hin Hrm; [by apply elem_of_nil in Hin |].
  cbn [foldl]. destruct (decide (f = f')) as [<-|Hne].
  - by apply fs_foldl_remove_mono, fs_remove_temp_file_gone.
  - apply IH; [set_solver | done].
Qed.

Lemma fs_cleanup_0_mono rm f c w : f ∉ fs w → f ∉ fs (cleanup_n 0 rm c w).
Proof.
  intros H. simpl. destruct (heap w !! c) as [gc|]; [| done].
  destruct (fields gc); try done. simpl. by apply fs_foldl_remove_mono.
Qed.

Lemma fs_foldl_cleanup_0_mono rm f cs w :
  f ∉ fs w → f ∉ fs (foldl (λ w c, cleanup_n 0 rm c w) w cs).
Proof.
  revert w. induction cs as [|c cs IH]; intros w H; cbn [foldl]; [done |].
  by apply IH, fs_cleanup_0_mono.
Qed.

Lemma fs_cleanup_0_gone rm f c w :
  f ∈ recorded_files c w → rm f = false → f ∉ fs (cleanup_n 0 rm c w).
Proof.
  unfold recorded_files. simpl. destruct (heap w !! c) as [gc|]; [| by intros ?%elem_of_nil].
  destruct (fields gc); try by intros ?%elem_of_nil.
  intros Hin Hrm. simpl. by apply fs_foldl_remove_gone.
Qed.

Lemma fs_foldl_cleanup_0_gone rm f c cs w :
  c ∈ cs → f ∈ recorded_files c w → rm f = false →
  f ∉ fs (foldl (λ w c, cleanup_n 0 rm c w) w cs).
Proof.
  revert w. induction cs as [|c' cs IH]; intros w Hc Hin Hrm; [by apply elem_of_nil in Hc |].
  cbn [foldl]. destruct (decide (c = c')) as [<-|Hne].
  - by apply fs_foldl_cleanup_0_mono, fs_cleanup_0_gone.
  - apply IH; [set_solver | | done].
    unfold recorded_files in *. by rewrite heap_cleanup_0_ne.
Qed.

(** What one [cleanup] achieves, from any world. *)
Lemma cleanup_artifacts rm o w c :
  c ∈ family o w →
  owned_chunks c (cleanup rm o w) = [] ∧ recorded_files c (cleanup rm o w) = [] ∧
  ∀ f, f ∈ recorded_files c w → rm f = false → f ∉ fs (cleanup rm o w).
Proof.
  unfold family, obj_children. intros Hc.
  destruct (heap w !! o) as [g|] eqn:Hg.
  2: { apply list_elem_of_singleton in Hc as ->.
       unfold cleanup. rewrite cleanup_n_S, Hg.
       unfold owned_chunks, recorded_files. rewrite Hg.
       repeat split; try done. by intros f ?%elem_of_nil. }
  destruct (fields g) as [| | | |ws] eqn:Hf.
  1-4: apply list_elem_of_singleton in Hc as ->;
       rewrite (cleanup_leaf_eq rm o w g Hg) by (rewrite Hf; done);
       destruct (cleanup_0_makes_clean rm o w) as [H1 H2];
       repeat split; try done; intros f Hin Hrm; by apply fs_cleanup_0_gone.
  unfold cleanup. rewrite cleanup_n_S, Hg, Hf.
  destruct (decide (c ∈ ws)) as [Hin|Hnin].
  - destruct (foldl_cleanup_0_all_clean rm ws w c Hin) as [H1 H2].
    repeat split; try done. intros f Hf' Hrm. by apply fs_foldl_cleanup_0_gone with c.
  - apply elem_of_cons in Hc as [-> | ?]; [| done].
    assert (F : frame w (foldl (λ w c, cleanup_n 0 rm c w) w ws))
      by (apply frame_foldl; [intros; by apply frame_cleanup_n | reflexivity]).
    destruct (frame_lookup _ _ _ _ F Hg) as (g' & Hg' & (_&_&_&_&Hc)).
    unfold owned_chunks, recorded_files. rewrite Hg', Hg, Hf. rewrite Hf in Hc.
    destruct (fields g'); simpl in Hc; try done.
    repeat split; try done. by intros f ?%elem_of_nil.
Qed.


(** When no removal raises, stop and cleanup leave zero artifacts. *)
Lemma stop_cleanup_zero_artifacts s js o w :
  let w1 := stop js o (run_sched s w) in
  zero_artifacts o w1 (cleanup (λ _, false) o w1).
Proof.
  intros w1 c Hc.
  destruct (cleanup_artifacts (λ _, false) o w1 c Hc) as (H1 & H2 & H3).
  repeat split; auto.
Qed.



(** *** Cooperative cancellation *)

(** A worker that finds the running flag cleared at its loop test exits. *)
Lemma worker_exits_when_stopped t th e w :
  thread_table w !! t = Some th → th_pc th = AtTop →
  obj_running (th_self th) w = false →
  is_alive t (thread_step t e w) = false.
Proof.
  intros Ht Hpc Hr. unfold thread_step, is_alive. rewrite Ht, Hpc, Hr. simpl.
  by rewrite list_lookup_alter_eq, Ht.
Qed.

(** The guarantee of stop and cleanup is about the moment [cleanup] returns.
    A worker that is inside its iteration when its join times out is still
    alive then, and completes the iteration afterwards. *)
Example iteration_completed_after_cleanup :
  let w2 := cleanup (λ _, false) 0 (stop (λ _, []) 0 memory_entered) in
  owned_chunks 0 w2 = [] ∧ is_alive 0 w2 = true ∧
  owned_chunks 0 (thread_step 0 sample_env w2) = [104857600%Z].
Proof. repeat split; reflexivity. Qed.

(** ** The request counter of the network workload *)

Lemma requests_network_cpu_body i e w :
  requests_total "network" (cpu_body i e w) = requests_total "network" w.
Proof.
  unfold cpu_body. destruct (raised e); unfold requests_total; simpl;
    by rewrite lookup_total_insert_ne.
Qed.

Lemma requests_network_memory_body o e w :
  requests_total "network" (memory_body o e w) = requests_total "network" w.
Proof.
  unfold memory_body. destruct (raised e); unfold requests_total; simpl; try done;
    by rewrite lookup_total_insert_ne.
Qed.

Lemma requests_network_storage_body o e w :
  requests_total "network" (storage_body o e w) = requests_total "network" w.
Proof.
  unfold storage_body. destruct (raised e); unfold requests_total; simpl; try done;
    by rewrite lookup_total_insert_ne.
Qed.

Lemma requests_network_after k t e w :
  requests_total "network" (network_after k t e w) = requests_total "network" w.
Proof. unfold network_after. by destruct (raised e). Qed.

Lemma requests_network_set_pc t p w :
  requests_total "network" (set_pc t p w) = requests_total "network" w.
Proof. done. Qed.

(** One step changes the counter of "network" by one if it receives a
    response with a success status, and not at all otherwise. *)
Lemma thread_step_requests_network t e w :
  requests_total "network" (thread_step t e w)
  = requests_total "network" w
    + match response_received t e w with
      | Some status => if is_success status then 1 else 0
      | None => 0
      end.
Proof.
  unfold thread_step, response_received.
  destruct (thread_table w !! t) as [[tg o p d]|]; [| simpl; lia]. cbn [th_pc th_target th_self].
  destruct p as [| |i|], tg as [k| |k|];
    rewrite ?requests_network_set_pc, ?requests_network_cpu_body,
      ?requests_network_memory_body, ?requests_network_storage_body; try lia.
  1-4: destruct (obj_running o w); rewrite requests_network_set_pc; lia.
  unfold network_for. destruct (obj_endpoints o w !! i) as [ep|].
  2: { rewrite requests_network_after. lia. }
  destruct (obj_running o w); cbn [negb].
  2: { rewrite requests_network_after. lia. }
  unfold is_success.
  destruct (raised e); try (unfold requests_total; simpl; lia);
    rewrite requests_network_set_pc;
    (destruct (status_code e =? 200)%Z;
     [unfold requests_total; simpl; rewrite lookup_total_insert_eq; lia | lia]).
Qed.


(** A pass over the four endpoints answering 200, 405, 200, 200 counts three
    requests. *)
Example network_pass_counts :
  requests_total "network"
    (run_sched [(0, Env 0 0 NoFault 200 0 0); (0, Env 0 0 NoFault 405 0 0);
                (0, Env 0 0 NoFault 200 0 0); (0, Env 0 0 NoFault 200 0 0)] network_ran) = 3.
Proof. vm_compute. reflexivity. Qed.

(** ** Adding a workload under a key that is already present *)

Lemma stored_under_dict_set_same {V} (k : string) (v : V) d :
  stored_under k (dict_set k v d) = v :: tail (stored_under k d).
Proof.
  induction d as [|[k' v'] d IH]; simpl.
  - by rewrite decide_True.
  - destruct (decide (k = k')) as [<-|Hne]; simpl.
    + by rewrite decide_True.
    + by rewrite decide_False.
Qed.

Lemma stored_under_dict_set_ne {V} (k k' : string) (v : V) d :
  k ≠ k' → stored_under k' (dict_set k v d) = stored_under k' d.
Proof.
  intros Hne. induction d as [|[k0 v0] d IH]; simpl.
  - by rewrite decide_False.
  - destruct (decide (k = k0)) as [<-|Hne0]; simpl.
    + by rewrite !decide_False.
    + by rewrite IH.
Qed.

Lemma dict_lookup_stored {V} (k : string) (d : list (string * V)) v :
  dict_lookup k d = Some v → v ∈ stored_under k d ∧ v ∈ d.*2.
Proof.
  induction d as [|[k' v'] d IH]; simpl; [done |].
  destruct (decide (k = k')); intros H; simplify_eq; set_solver.
Qed.

Lemma dict_lookup_key {V} (k : string) (d : list (string * V)) v :
  dict_lookup k d = Some v → k ∈ d.*1.
Proof.
  induction d as [|[k' v'] d IH]; simpl; [done |].
  destruct (decide (k = k')) as [->|]; intros H; [left | right; auto].
Qed.

Lemma Forall_dict_set_keys {V} (P : string → Prop) (k : string) (v : V) d :
  P k → Forall P d.*1 → Forall P (dict_set k v d).*1.
Proof.
  intros Hk. induction d as [|[k' v'] d IH]; simpl; intros H.
  - by constructor.
  - apply Forall_cons in H as [H1 H2]. case_decide; simpl; constructor; auto.
Qed.

Lemma Forall_dict_set {V} (P : V → Prop) (k : string) (v : V) d :
  P v → Forall P d.*2 → Forall P (dict_set k v d).*2.
Proof.
  intros Hv. induction d as [|[k' v'] d IH]; simpl; intros H.
  - by constructor.
  - apply Forall_cons in H as [H1 H2]. case_decide; simpl; constructor; auto.
Qed.

Lemma heap_length_frame w w' : frame w w' → length (heap w') = length (heap w).
Proof. intros H. symmetry. by apply Forall2_length in H. Qed.

Lemma heap_length_spawn tg o w : length (heap (spawn tg o w)) = length (heap w).
Proof. unfold spawn. simpl. apply length_alter. Qed.

Lemma heap_length_start_base o w : length (heap (WorkloadGenerator_start o w)) = length (heap w).
Proof. unfold WorkloadGenerator_start. case_match; [| done]. simpl. apply length_alter. Qed.

Lemma heap_length_start_n n o w : length (heap (start_n n o w)) = length (heap w).
Proof.
  revert o w. induction n as [|n IH]; intros o w; simpl;
    (destruct (heap w !! o) as [g|]; [| done]);
    destruct (fields g);
    rewrite ?(foldl_inv _ (λ w, length (heap w))), ?heap_length_spawn
      by (intros; first [apply heap_length_spawn | apply IH]);
    auto using heap_length_start_base.
Qed.

Lemma heap_length_foldl_start os w :
  length (heap (foldl (λ w o, start o w) w os)) = length (heap w).
Proof. apply (foldl_inv _ (λ w, length (heap w))). intros. apply heap_length_start_n. Qed.

Lemma frame_stop_all js m w : frame w (stop_all js (m, w)).2.
Proof.
  simpl. apply frame_logger, frame_foldl; [| reflexivity].
  intros. by apply frame_stop_n.
Qed.

Lemma frame_cleanup_all rm m w : frame w (cleanup_all rm (m, w)).2.
Proof.
  simpl. apply frame_logger, frame_foldl; [| reflexivity].
  intros. by apply frame_cleanup_n.
Qed.

(** What a constructor does to the world: it only appends objects. *)
Lemma construct_extends cls intensity w :
  let '(o, w') := construct cls intensity w in
  o = length (heap w) ∧ length (heap w) < length (heap w') ∧
  (∀ o', o' < length (heap w) → heap w' !! o' = heap w !! o') ∧
  thread_table w' = thread_table w ∧ fs w' = fs w ∧ log w' = log w.
Proof.
  destruct cls; simpl; rewrite ?length_alter, ?length_app; simpl;
    (split; [done |]); (split; [lia |]); (split; [| done]);
    intros o' Ho'; rewrite ?list_lookup_alter_ne by lia;
    rewrite <- ?app_assoc; by rewrite lookup_app_l.
Qed.

Lemma Forall_lt_mono (l : list nat) (a b : nat) :
  (a ≤ b)%nat → Forall (λ o, (o < a)%nat) l → Forall (λ o, (o < b)%nat) l.
Proof. intros H. induction 1; constructor; [lia | done]. Qed.

Lemma wf_state_same_length (m m' : LoadGeneratorManager) (w w' : world) :
  mgr_workloads m' = mgr_workloads m → length (heap w') = length (heap w) →
  wf_state (m, w) → wf_state (m', w').
Proof. unfold wf_state. simpl. by intros -> ->. Qed.

Lemma wf_state_add workload_type intensity st :
  wf_state st → wf_state (add_workload workload_type intensity st).2.
Proof.
  destruct st as [m w]. intros (H1 & H2 & H3). unfold add_workload.
  destruct (workload_map !! workload_type) as [cls|] eqn:Hcls; [| done].
  pose proof (construct_extends cls intensity w) as E.
  destruct (construct cls intensity w) as [o w']. destruct E as (-> & Hlen & _).
  split; [| split]; simpl in *.
  - intros k. destruct (decide (workload_type = k)) as [<-|Hne].
    + rewrite stored_under_dict_set_same. simpl.
      specialize (H1 workload_type). destruct (stored_under workload_type _); simpl in *; lia.
    + by rewrite stored_under_dict_set_ne.
  - apply Forall_dict_set; [lia |]. eapply Forall_lt_mono; [| exact H2]. lia.
  - apply Forall_dict_set_keys; [by rewrite Hcls | done].
Qed.

Lemma wf_state_reachable st : reachable st → wf_state st.
Proof.
  induction 1 as [w|wt i st H IH|[m w] H IH|js [m w] H IH|rm [m w] H IH
                 |sg js [m w] H IH|s m w H IH].
  - split; [| split]; simpl; [lia | constructor | constructor].
  - by apply wf_state_add.
  - unfold start_all. destruct (mgr_workloads m) eqn:E; [done |]. rewrite <- E.
    eapply wf_state_same_length; [| | exact IH]; [done |].
    apply (heap_length_foldl_start (values (mgr_workloads m)) w).
  - eapply wf_state_same_length; [| | exact IH]; [done |].
    apply heap_length_frame, frame_stop_all.
  - eapply wf_state_same_length; [| | exact IH]; [done |].
    apply heap_length_frame, frame_cleanup_all.
  - unfold signal_handler.
    eapply wf_state_same_length; [| | exact IH]; [done |].
    apply heap_length_frame.
    apply (frame_stop_all js (Manager (mgr_workloads m) (mgr_running m) true)
             (logger INFO (MsgSignal sg) w)).
  - eapply wf_state_same_length; [| | exact IH]; [done |].
    apply heap_length_frame, frame_run_sched. reflexivity.
Qed.




(** ** The run loop *)

Lemma calls_app l1 l2 : calls (l1 ++ l2) = calls l1 ++ calls l2.
Proof. apply omap_app. Qed.

Lemma made_calls_refl w : made_calls w w [].
Proof. exists []. by rewrite app_nil_r. Qed.

Lemma made_calls_trans w0 w1 w2 cs1 cs2 :
  made_calls w0 w1 cs1 → made_calls w1 w2 cs2 → made_calls w0 w2 (cs1 ++ cs2).
Proof.
  intros (l1 & E1 & C1) (l2 & E2 & C2). exists (l1 ++ l2). split.
  - by rewrite E2, E1, app_assoc.
  - by rewrite calls_app, C1, C2.
Qed.

Lemma made_calls_log_eq w0 w w' cs : log w' = log w → made_calls w0 w cs → made_calls w0 w' cs.
Proof. intros E (l & El & C). exists l. by rewrite E. Qed.

Lemma made_calls_logger w0 w lv m cs :
  call_of (lv, m) = None → made_calls w0 w cs → made_calls w0 (logger lv m w) cs.
Proof.
  intros Hq (l & El & C). exists (l ++ [(lv, m)]). split.
  - simpl. by rewrite El, app_assoc.
  - rewrite calls_app, C. unfold calls. simpl. rewrite Hq. apply app_nil_r.
Qed.

Lemma made_calls_logger_call w0 w lv m c cs :
  call_of (lv, m) = Some c → made_calls w0 w cs → made_calls w0 (logger lv m w) (cs ++ [c]).
Proof.
  intros Hq (l & El & C). exists (l ++ [(lv, m)]). split.
  - simpl. by rewrite El, app_assoc.
  - rewrite calls_app, C. unfold calls. simpl. by rewrite Hq.
Qed.

Lemma made_calls_requests_inc w0 w l cs : made_calls w0 w cs → made_calls w0 (requests_inc l w) cs.
Proof. by apply made_calls_log_eq. Qed.
Lemma made_calls_errors_inc w0 w l cs : made_calls w0 w cs → made_calls w0 (errors_inc l w) cs.
Proof. by apply made_calls_log_eq. Qed.
Lemma made_calls_duration_observe w0 w l v cs :
  made_calls w0 w cs → made_calls w0 (duration_observe l v w) cs.
Proof. by apply made_calls_log_eq. Qed.
Lemma made_calls_usage_set w0 w r l v cs : made_calls w0 w cs → made_calls w0 (usage_set r l v w) cs.
Proof. by apply made_calls_log_eq. Qed.
Lemma made_calls_upd_fs w0 w f cs : made_calls w0 w cs → made_calls w0 (upd_fs f w) cs.
Proof. by apply made_calls_log_eq. Qed.
Lemma made_calls_set_pc w0 w t p cs : made_calls w0 w cs → made_calls w0 (set_pc t p w) cs.
Proof. by apply made_calls_log_eq. Qed.
Lemma made_calls_obj_update w0 w o f cs : made_calls w0 w cs → made_calls w0 (obj_update o f w) cs.
Proof. by apply made_calls_log_eq. Qed.
Lemma made_calls_upd_threads w0 w f cs : made_calls w0 w cs → made_calls w0 (upd_threads f w) cs.
Proof. by apply made_calls_log_eq. Qed.

Create HintDb calls discriminated.
Global Hint Resolve made_calls_logger made_calls_requests_inc made_calls_errors_inc
  made_calls_duration_observe made_calls_usage_set made_calls_upd_fs made_calls_set_pc
  made_calls_obj_update made_calls_upd_threads : calls.
Global Hint Extern 1 (call_of _ = None) => reflexivity : calls.

Lemma made_calls_foldl {A} (f : world → A → world) (l : list A) w0 w cs :
  (∀ w a, made_calls w0 w cs → made_calls w0 (f w a) cs) →
  made_calls w0 w cs → made_calls w0 (foldl f w l) cs.
Proof. intros Hf. revert w. induction l; simpl; auto. Qed.

Lemma made_calls_thread_step w0 w t e cs :
  made_calls w0 w cs → made_calls w0 (thread_step t e w) cs.
Proof.
  intros H. unfold thread_step, cpu_body, memory_body, storage_body, network_for,
    network_after, append_chunk, append_temp_file.
  repeat case_match; auto 12 with calls.
Qed.

Lemma made_calls_run_sched w0 w s cs : made_calls w0 w cs → made_calls w0 (run_sched s w) cs.
Proof. apply made_calls_foldl. intros. by apply made_calls_thread_step. Qed.

Lemma made_calls_spawn w0 w tg o cs : made_calls w0 w cs → made_calls w0 (spawn tg o w) cs.
Proof. intros H. unfold spawn. auto with calls. Qed.

Lemma made_calls_start_base w0 w o cs :
  made_calls w0 w cs → made_calls w0 (WorkloadGenerator_start o w) cs.
Proof. intros H. unfold WorkloadGenerator_start. case_match; auto with calls. Qed.

Lemma made_calls_start_n n w0 w o cs : made_calls w0 w cs → made_calls w0 (start_n n o w) cs.
Proof.
  revert o w. induction n as [|n IH]; intros o w H; simpl;
    (destruct (heap w !! o) as [g|]; [| done]);
    destruct (fields g);
    auto using made_calls_foldl, made_calls_spawn, made_calls_start_base.
Qed.

Lemma made_calls_stop_base w0 w js o cs :
  made_calls w0 w cs → made_calls w0 (WorkloadGenerator_stop js o w) cs.
Proof.
  intros H. unfold WorkloadGenerator_stop. case_match; [| done].
  apply made_calls_logger; [done |]. apply made_calls_foldl; [| auto with calls].
  intros ? ? ?. case_match; [| done]. by apply made_calls_run_sched.
Qed.

Lemma made_calls_stop_n n w0 w js o cs : made_calls w0 w cs → made_calls w0 (stop_n n js o w) cs.
Proof.
  revert o w. induction n as [|n IH]; intros o w H; simpl;
    (destruct (heap w !! o) as [g|]; [| done]);
    destruct (fields g);
    auto using made_calls_foldl, made_calls_stop_base.
Qed.

Lemma made_calls_remove_temp_file w0 w rm f cs :
  made_calls w0 w cs → made_calls w0 (remove_temp_file rm f w) cs.
Proof. intros H. unfold remove_temp_file. repeat case_match; auto with calls. Qed.

Lemma made_calls_cleanup_n n w0 w rm o cs :
  made_calls w0 w cs → made_calls w0 (cleanup_n n rm o w) cs.
Proof.
  revert o w. induction n as [|n IH]; intros o w H; simpl;
    (destruct (heap w !! o) as [g|]; [| done]);
    destruct (fields g);
    auto using made_calls_foldl, made_calls_remove_temp_file, made_calls_obj_update.
Qed.

Lemma made_calls_start_all w0 m w cs :
  made_calls w0 w cs → made_calls w0 (start_all (m, w)).2 cs.
Proof.
  intros H. unfold start_all. destruct (mgr_workloads m) eqn:E.
  - by apply made_calls_logger.
  - rewrite <- E. cbn [snd]. apply made_calls_logger; [done |].
    apply made_calls_foldl; [| done]. intros. by apply made_calls_start_n.
Qed.

Lemma made_calls_stop_all w0 m w js cs :
  made_calls w0 w cs → made_calls w0 (stop_all js (m, w)).2 (cs ++ [StopAll]).
Proof.
  intros H. cbn [stop_all snd]. apply made_calls_logger_call; [done |].
  apply made_calls_foldl; [| done]. intros. by apply made_calls_stop_n.
Qed.

Lemma made_calls_cleanup_all w0 m w rm cs :
  made_calls w0 w cs → made_calls w0 (cleanup_all rm (m, w)).2 (cs ++ [CleanupAll]).
Proof.
  intros H. cbn [cleanup_all snd]. apply made_calls_logger_call; [done |].
  apply made_calls_foldl; [| done]. intros. by apply made_calls_cleanup_n.
Qed.

Lemma made_calls_log_since w w' cs : made_calls w w' cs → calls (log_since w w') = cs.
Proof. intros (l & E & C). unfold log_since. by rewrite E, drop_app_length. Qed.

(** The polling loop returns when given [duration] units of fuel: every
    completed sleep advances the clock by at least one second.  It leaves
    either without a call on the manager, or through the signal handler, which
    has called [stop_all] once. *)
Lemma poll_spec fuel ticks i start_time now dur m w w0 cs :
  (dur * 1000 - (now - start_time) ≤ 1000 * Z.of_nat fuel)%Z →
  made_calls w0 w cs →
  ∃ r m' w', poll fuel ticks i start_time now dur (m, w) = Some (r, (m', w')) ∧
    ((signal_received m' = signal_received m ∧
      (r = None ∨ r = Some KeyboardInterrupt ∨ r = Some OtherException) ∧
      made_calls w0 w' cs) ∨
     (signal_received m' = true ∧ r = Some (SystemExit 0) ∧
      made_calls w0 w' (cs ++ [StopAll]) ∧
      ∃ j signum, happens (ticks j) = Signal signum)).
Proof.
  revert i now w. induction fuel as [|fuel IH]; intros i now w Hfuel Hw.
  - cbn [poll]. destruct (Z.ltb_spec (now - start_time) (dur * 1000)) as [Hlt|Hge]; [lia |].
    cbn [andb]. eauto 10.
  - cbn [poll]. destruct (Z.ltb_spec (now - start_time) (dur * 1000)) as [Hlt|Hge];
      cbn [andb]; [| eauto 10].
    destruct (signal_received m) eqn:Hs; cbn [negb]; [eauto 10 |].
    pose proof (made_calls_run_sched w0 w (during (ticks i)) cs Hw) as Hw1.
    destruct (happens (ticks i)) as [extra|signum| |] eqn:Hh.
    + apply IH; [lia |]. case_match; [| done]. by apply made_calls_logger.
    + do 3 eexists. split; [reflexivity |]. right.
      split; [done |]. split; [done |]. split; [| eauto].
      apply (made_calls_stop_all w0 _ _ (handler_joins (ticks i)) cs).
      by apply made_calls_logger.
    + eauto 10.
    + eauto 10.
Qed.



(** Natural completion: one [stop_all], one [cleanup_all]. *)
Example main_completes :
  observed run_cfg quiet_env empty_world = Some (None, [StopAll; CleanupAll]).
Proof. vm_compute. reflexivity. Qed.

(** [KeyboardInterrupt] and any other [Exception] are caught: the same calls. *)
Example main_interrupted :
  observed run_cfg (MainEnv 0 (λ _, Tick [] Interrupt (λ _, [])) (λ _, []) (λ _, false))
    empty_world = Some (None, [StopAll; CleanupAll]).
Proof. vm_compute. reflexivity. Qed.

Example main_failed :
  observed run_cfg (MainEnv 0 (λ _, Tick [] Failure (λ _, [])) (λ _, []) (λ _, false))
    empty_world = Some (None, [StopAll; CleanupAll]).
Proof. vm_compute. reflexivity. Qed.

(** An unknown workload type raises before the [try] statement: no call. *)
Example main_unknown_type :
  observed (Settings "gpu" "high" 3 8000) quiet_env empty_world
  = Some (Some (ValueError "gpu"), []).
Proof. vm_compute. reflexivity. Qed.


(** * Further properties *)

(** ** Workers *)

Ltac moved_to p :=
  eexists _, p; split; [reflexivity |]; split; [done |]; split; [| done].

Lemma thread_step_table t e w :
  thread_table (thread_step t e w) = thread_table w ∨
  ∃ th p, thread_table w !! t = Some th ∧ th_pc th ≠ Exited ∧
    thread_table (thread_step t e w)
    = alter (λ th, Build_Thread (th_target th) (th_self th) p (daemon th)) t (thread_table w) ∧
    (p = Exited → th_pc th = AtTop ∧ obj_running (th_self th) w = false).
Proof.
  unfold thread_step. destruct (thread_table w !! t) as [th|] eqn:Ht; [| by left].
  destruct th as [tg o p d]. cbn [th_pc th_target th_self].
  destruct p as [| |i|]; [| | | by left].
  - right. destruct (obj_running o w) eqn:Hr.
    + eexists _, _. split; [done |]. split; [done |]. split; [reflexivity |].
      by destruct tg.
    + eexists _, _. split; [done |]. split; [done |]. split; [reflexivity |]. done.
  - destruct tg as [k| |k|]; [| | by left |]; right; moved_to AtTop.
    + unfold cpu_body. by destruct (raised e).
    + unfold memory_body. by destruct (raised e).
    + unfold storage_body. by destruct (raised e).
  - destruct tg as [k| |k|]; [by left | by left | | by left]. right.
    unfold network_for.
    destruct (obj_endpoints o w !! i);
      [destruct (obj_running o w); cbn [negb] |].
    + destruct (raised e);
        first [ by (moved_to (NetFor (S i)); by case_match)
              | by (moved_to AtTop) ].
    + moved_to AtTop. unfold network_after. by destruct (raised e).
    + moved_to AtTop. unfold network_after. by destruct (raised e).
Qed.
Lemma is_alive_lookup t w th :
  thread_table w !! t = Some th → is_alive t w = bool_decide (th_pc th ≠ Exited).
Proof. unfold is_alive. by intros ->. Qed.

(** X1: a live worker is dead after a step exactly when the step is its own,
    it stands at the test of [while self.running], and the flag is cleared.
    No exception raised in an iteration and no step of another thread ends
    a worker. *)
Theorem X1_worker_leaves_only_at_test (t t' : tid) (th : Thread) (e : env) (w : world) :
  thread_table w !! t = Some th →
  th_pc th ≠ Exited →
  (is_alive t (thread_step t' e w) = false ↔
   t' = t ∧ th_pc th = AtTop ∧ obj_running (th_self th) w = false).
Proof.
  intros Ht Hlive. split.
  - destruct (thread_step_table t' e w) as [E | (th' & p & Ht' & _ & E & Hp)];
      unfold is_alive; rewrite E.
    + rewrite Ht. rewrite bool_decide_eq_false. intros Hd. by destruct Hd.
    + destruct (decide (t' = t)) as [->|Hne].
      * rewrite list_lookup_alter_eq, Ht. simpl. simplify_eq.
        rewrite bool_decide_eq_false. intros Hd.
        destruct (decide (p = Exited)) as [->|]; [| done]. by destruct Hp.
      * rewrite list_lookup_alter_ne, Ht by done.
        rewrite bool_decide_eq_false. intros Hd. by destruct Hd.
  - intros (-> & Hpc & Hr). by apply (worker_exits_when_stopped t th).
Qed.
Global Instance thread_kept_refl : Reflexive thread_kept.
Proof. by intros th. Qed.

Global Instance thread_kept_trans : Transitive thread_kept.
Proof.
  intros a b c (?&?&?&?) (?&?&?&?). repeat split; try congruence. auto.
Qed.

Global Instance threads_kept_refl : Reflexive threads_kept.
Proof. intros w t th H. eauto using thread_kept_refl. Qed.

Global Instance threads_kept_trans : Transitive threads_kept.
Proof.
  intros w1 w2 w3 H12 H23 t th H.
  destruct (H12 t th H) as (th2 & H2 & K2). destruct (H23 t th2 H2) as (th3 & H3 & K3).
  exists th3. split; [done |]. by etrans.
Qed.

Lemma threads_kept_table_eq w0 w w' :
  thread_table w' = thread_table w → threads_kept w0 w → threads_kept w0 w'.
Proof. intros E H t th Ht. rewrite E. by apply H. Qed.

Lemma threads_kept_thread_step w0 w t e : threads_kept w0 w → threads_kept w0 (thread_step t e w).
Proof.
  intros H. etrans; [exact H |]. clear H w0. intros t0 th Ht.
  destruct (thread_step_table t e w) as [E | (th' & p & Ht' & Hlive & E & _)]; rewrite E.
  - eauto using thread_kept_refl.
  - destruct (decide (t = t0)) as [->|Hne].
    + rewrite list_lookup_alter_eq, Ht. simpl. eexists. split; [done |].
      simplify_eq. by repeat split.
    + rewrite list_lookup_alter_ne by done. eauto using thread_kept_refl.
Qed.

Lemma threads_kept_foldl {A} (f : world → A → world) (l : list A) w0 w :
  (∀ w a, threads_kept w0 w → threads_kept w0 (f w a)) →
  threads_kept w0 w → threads_kept w0 (foldl f w l).
Proof. intros Hf. revert w. induction l; simpl; auto. Qed.

Lemma threads_kept_run_sched w0 w s : threads_kept w0 w → threads_kept w0 (run_sched s w).
Proof. apply threads_kept_foldl. intros. by apply threads_kept_thread_step. Qed.

Lemma threads_kept_spawn w0 w tg o : threads_kept w0 w → threads_kept w0 (spawn tg o w).
Proof.
  intros H t th Ht. destruct (H t th Ht) as (th' & Ht' & K). exists th'. split; [| done].
  unfold spawn. simpl. by apply lookup_app_l_Some.
Qed.

Lemma threads_kept_start_base w0 w o :
  threads_kept w0 w → threads_kept w0 (WorkloadGenerator_start o w).
Proof.
  apply threads_kept_table_eq. unfold WorkloadGenerator_start. by case_match.
Qed.

Lemma threads_kept_start_n n w0 w o : threads_kept w0 w → threads_kept w0 (start_n n o w).
Proof.
  revert o w. induction n as [|n IH]; intros o w H; simpl;
    (destruct (heap w !! o) as [g|]; [| done]);
    destruct (fields g);
    auto using threads_kept_foldl, threads_kept_spawn, threads_kept_start_base.
Qed.

Lemma threads_kept_stop_base w0 w js o :
  threads_kept w0 w → threads_kept w0 (WorkloadGenerator_stop js o w).
Proof.
  intros H. unfold WorkloadGenerator_stop. case_match; [| done].
  eapply threads_kept_table_eq; [reflexivity |]. cbn [thread_table logger upd_log].
  apply threads_kept_foldl; [| by apply (threads_kept_table_eq w0 w)].
  intros ? ? ?. case_match; [| done]. by apply threads_kept_run_sched.
Qed.

Lemma threads_kept_stop_n n w0 w js o : threads_kept w0 w → threads_kept w0 (stop_n n js o w).
Proof.
  revert o w. induction n as [|n IH]; intros o w H; simpl;
    (destruct (heap w !! o) as [g|]; [| done]);
    destruct (fields g);
    auto using threads_kept_foldl, threads_kept_stop_base.
Qed.

Lemma thread_table_remove_temp_file rm f w :
  thread_table (remove_temp_file rm f w) = thread_table w.
Proof. unfold remove_temp_file. by repeat case_match. Qed.

Lemma thread_table_cleanup_n n rm o w : thread_table (cleanup_n n rm o w) = thread_table w.
Proof.
  revert o w. induction n as [|n IH]; intros o w; simpl;
    (destruct (heap w !! o) as [g|]; [| done]);
    destruct (fields g); simpl; try done;
    first [ by apply (foldl_inv _ thread_table); intros; apply thread_table_remove_temp_file
          | by apply (foldl_inv _ thread_table) ].
Qed.

(** X2: no lifecycle operation and no worker step removes a thread from the
    table, changes its target, its generator or its daemon flag, or brings a
    dead thread back to life. *)
Theorem X2_threads_never_lost (s : schedule) (js : tid → schedule) (rm : string → bool)
    (o : oid) (w : world) :
  threads_kept w (run_sched s w) ∧
  threads_kept w (start o w) ∧
  threads_kept w (stop js o w) ∧
  threads_kept w (cleanup rm o w).
Proof.
  repeat split.
  - apply threads_kept_run_sched. reflexivity.
  - apply threads_kept_start_n. reflexivity.
  - apply threads_kept_stop_n. reflexivity.
  - apply (threads_kept_table_eq w w); [apply thread_table_cleanup_n | reflexivity].
Qed.

(** ** Counters *)

Lemma error_records_logger lv m w :
  error_records (logger lv m w)
  = error_records w + (if decide (lv = ERROR) then 1 else 0).
Proof.
  unfold error_records, logger. simpl. rewrite filter_app, length_app. f_equal.
  rewrite filter_cons, filter_nil. simpl. by destruct (decide (lv = ERROR)).
Qed.

Lemma all_errors_inc l w :
  l ∈ ["cpu"; "memory"; "network"; "storage"] →
  all_errors (errors_inc l w) = S (all_errors w).
Proof.
  intros H. unfold all_errors, errors_total, errors_inc. simpl.
  repeat (apply elem_of_cons in H as [-> | H]);
    [| | | | by apply elem_of_nil in H];
    rewrite lookup_total_insert_eq, !lookup_total_insert_ne by done; lia.
Qed.

(** A failed iteration: one ERROR record, one count. *)
Lemma failed_balanced l m w :
  l ∈ ["cpu"; "memory"; "network"; "storage"] →
  all_errors (errors_inc l (logger ERROR m w)) = S (all_errors w) ∧
  error_records (errors_inc l (logger ERROR m w)) = S (error_records w).
Proof.
  intros H. split.
  - by rewrite all_errors_inc.
  - change (error_records (errors_inc l (logger ERROR m w)))
      with (error_records (logger ERROR m w)).
    rewrite error_records_logger. simpl. lia.
Qed.

Ltac fails_with l :=
  right;
  match goal with
  | |- context [errors_inc l (logger ERROR ?m ?w')] =>
    exact (failed_balanced l m w' ltac:(set_solver))
  end.

Lemma thread_step_errors t e w :
  (all_errors (thread_step t e w) = all_errors w ∧
   error_records (thread_step t e w) = error_records w) ∨
  (all_errors (thread_step t e w) = S (all_errors w) ∧
   error_records (thread_step t e w) = S (error_records w)).
Proof.
  unfold thread_step. destruct (thread_table w !! t) as [[tg o p d]|]; [| by left].
  cbn [th_pc th_target th_self].
  destruct p as [| |i|], tg as [k| |k|]; try (by left);
    try (by (left; destruct (obj_running o w))).
  - unfold cpu_body. destruct (raised e); try (by left).
    fails_with "cpu".
  - unfold memory_body. destruct (raised e); try (by left);
      fails_with "memory".
  - unfold storage_body. destruct (raised e); try (by left);
      fails_with "storage".
  - unfold network_for, network_after.
    destruct (obj_endpoints o w !! i); [destruct (obj_running o w); cbn [negb] |];
      destruct (raised e); try (by left); try (by (left; case_match));
      fails_with "network".
Qed.

(** X3: along any schedule of worker steps, the errors counted under the
    four workload types grow by exactly the number of ERROR records written
    to the log: every failed iteration is both logged and counted, once. *)
Theorem X3_errors_counted_and_logged (s : schedule) (w : world) :
  all_errors (run_sched s w) + error_records w
  = error_records (run_sched s w) + all_errors w.
Proof.
  revert w. induction s as [|[t e] s IH]; intros w; simpl; [lia |].
  change (foldl _ (thread_step t e w) s) with (run_sched s (thread_step t e w)).
  specialize (IH (thread_step t e w)).
  destruct (thread_step_errors t e w) as [[E1 E2] | [E1 E2]]; lia.
Qed.

(** X4: a worker step leaves the request counter and the error counter of
    every workload type other than the worker's own untouched. *)
Theorem X4_counters_by_own_label (t : tid) (th : Thread) (e : env) (w : world) (l : string) :
  thread_table w !! t = Some th →
  l ≠ label_of (th_target th) →
  requests_total l (thread_step t e w) = requests_total l w ∧
  errors_total l (thread_step t e w) = errors_total l w.
Proof.
  intros Ht Hl. unfold thread_step. rewrite Ht. destruct th as [tg o p d].
  cbn [th_pc th_target th_self label_of] in *.
  unfold requests_total, errors_total.
  destruct p as [| |i|], tg as [k| |k|]; simpl in Hl; try done;
    try (by destruct (obj_running o w)).
  - unfold cpu_body. destruct (raised e); simpl;
      by rewrite ?lookup_total_insert_ne by done.
  - unfold memory_body. destruct (raised e); simpl;
      by rewrite ?lookup_total_insert_ne by done.
  - unfold storage_body. destruct (raised e); simpl;
      by rewrite ?lookup_total_insert_ne by done.
  - unfold network_for, network_after.
    destruct (obj_endpoints o w !! i); [destruct (obj_running o w); cbn [negb] |];
      destruct (raised e); try case_match; simpl;
      by rewrite ?lookup_total_insert_ne by done.
Qed.

(** ** Artifacts while the workers run *)

Lemma owned_chunks_heap_eq o w w' : heap w' = heap w → owned_chunks o w' = owned_chunks o w.
Proof. unfold owned_chunks. by intros ->. Qed.

Lemma recorded_files_heap_eq o w w' : heap w' = heap w → recorded_files o w' = recorded_files o w.
Proof. unfold recorded_files. by intros ->. Qed.

Lemma obj_running_heap_eq o w w' : heap w' = heap w → obj_running o w' = obj_running o w.
Proof. unfold obj_running. by intros ->. Qed.

Lemma frame_obj_memory_mb w w' o : frame w w' → obj_memory_mb o w' = obj_memory_mb o w.
Proof.
  unfold frame, obj_memory_mb. intros H.
  destruct (heap w !! o) as [g|] eqn:E.
  - eapply Forall2_lookup_l in E as (g' & Hg' & Hk); [| exact H].
    rewrite Hg'. destruct Hk as (_ & _ & _ & -> & _). done.
  - apply Forall2_length in H. apply lookup_ge_None in E.
    rewrite (proj2 (lookup_ge_None _ _)); [done | lia].
Qed.

Lemma frame_chunk_size w w' o : frame w w' → chunk_size o w' = chunk_size o w.
Proof. intros H. unfold chunk_size. by rewrite (frame_obj_memory_mb w w'). Qed.

(** What one step does to the heap and to the files: nothing to the heap, or
    one buffer of the prescribed size retained by the generator of a memory
    worker, or one name of an existing file recorded by the generator of a
    storage worker; files are only ever added. *)
Lemma thread_step_heap t e w :
  fs w ⊆ fs (thread_step t e w) ∧
  (heap (thread_step t e w) = heap w ∨
   (∃ th, thread_table w !! t = Some th ∧ th_pc th = InBody ∧
      heap (thread_step t e w)
      = heap (append_chunk (th_self th) (chunk_size (th_self th) w) w)) ∨
   (∃ th f, thread_table w !! t = Some th ∧ th_pc th = InBody ∧
      f ∈ fs (thread_step t e w) ∧
      heap (thread_step t e w) = heap (append_temp_file (th_self th) f w))).
Proof.
  unfold thread_step. destruct (thread_table w !! t) as [[tg o p d]|] eqn:Ht; [| by split; [| left]].
  cbn [th_pc th_target th_self].
  destruct p as [| |i|], tg as [k| |k|]; try (by split; [| left]);
    try (by (destruct (obj_running o w); (split; [| left]))).
  - unfold cpu_body. by destruct (raised e); (split; [| left]).
  - unfold memory_body, chunk_size.
    destruct (raised e); (split; [done |]);
      first [ by left | right; left; by eexists ].
  - unfold storage_body.
    destruct (raised e); (split; [simpl; set_solver |]);
      first [ by left
            | right; right; eexists _, (storage_filename e);
              repeat split; [simpl; set_solver] ].
  - unfold network_for, network_after.
    destruct (obj_endpoints o w !! i); [destruct (obj_running o w); cbn [negb] |];
      destruct (raised e); try case_match; by (split; [| left]).
Qed.

Lemma owned_chunks_append_chunk o o' c w :
  owned_chunks o' (append_chunk o c w) = owned_chunks o' w ∨
  (o' = o ∧ owned_chunks o' (append_chunk o c w) = owned_chunks o' w ++ [c]).
Proof.
  unfold owned_chunks, append_chunk. simpl.
  destruct (decide (o = o')) as [->|Hne].
  - rewrite list_lookup_alter_eq. destruct (heap w !! o') as [g|]; [| by left]. simpl.
    destruct (fields g) eqn:E; simpl; rewrite ?E; auto.
  - rewrite list_lookup_alter_ne by done. by left.
Qed.

Lemma recorded_files_append_chunk o o' c w :
  recorded_files o' (append_chunk o c w) = recorded_files o' w.
Proof.
  unfold recorded_files, append_chunk. simpl.
  destruct (decide (o = o')) as [->|Hne].
  - rewrite list_lookup_alter_eq. destruct (heap w !! o') as [g|]; [| done]. simpl.
    destruct (fields g) eqn:E; simpl; by rewrite ?E.
  - by rewrite list_lookup_alter_ne.
Qed.

Lemma owned_chunks_append_temp_file o o' f w :
  owned_chunks o' (append_temp_file o f w) = owned_chunks o' w.
Proof.
  unfold owned_chunks, append_temp_file. simpl.
  destruct (decide (o = o')) as [->|Hne].
  - rewrite list_lookup_alter_eq. destruct (heap w !! o') as [g|]; [| done]. simpl.
    destruct (fields g) eqn:E; simpl; by rewrite ?E.
  - by rewrite list_lookup_alter_ne.
Qed.

Lemma recorded_files_append_temp_file o o' f w :
  recorded_files o' (append_temp_file o f w) = recorded_files o' w ∨
  (o' = o ∧ recorded_files o' (append_temp_file o f w) = recorded_files o' w ++ [f]).
Proof.
  unfold recorded_files, append_temp_file. simpl.
  destruct (decide (o = o')) as [->|Hne].
  - rewrite list_lookup_alter_eq. destruct (heap w !! o') as [g|]; [| by left]. simpl.
    destruct (fields g) eqn:E; simpl; rewrite ?E; auto.
  - rewrite list_lookup_alter_ne by done. by left.
Qed.

Lemma thread_step_chunks o t e w :
  ∃ cs, owned_chunks o (thread_step t e w) = owned_chunks o w ++ cs ∧
        Forall (λ c, c = chunk_size o w) cs.
Proof.
  destruct (thread_step_heap t e w) as [_ [E | [(th & _ & _ & E) | (th & f & _ & _ & _ & E)]]];
    rewrite (owned_chunks_heap_eq o _ _ E).
  - exists []. by rewrite app_nil_r.
  - destruct (owned_chunks_append_chunk (th_self th) o (chunk_size (th_self th) w) w)
      as [-> | [-> ->]].
    + exists []. by rewrite app_nil_r.
    + eexists. split; [done |]. by constructor.
  - rewrite owned_chunks_append_temp_file. exists []. by rewrite app_nil_r.
Qed.

(** X5: while the workers run, the list of retained buffers of a memory
    generator only grows at its end, and every buffer added has the size the
    intensity profile prescribes, [memory_mb * 1024 * 1024] bytes. *)
Theorem X5_chunks_appended_with_profile_size (o : oid) (s : schedule) (w : world) :
  ∃ cs, owned_chunks o (run_sched s w) = owned_chunks o w ++ cs ∧
        Forall (λ c, c = chunk_size o w) cs.
Proof.
  revert w. induction s as [|[t e] s IH]; intros w; simpl.
  - exists []. by rewrite app_nil_r.
  - change (foldl _ (thread_step t e w) s) with (run_sched s (thread_step t e w)).
    destruct (thread_step_chunks o t e w) as (cs1 & E1 & F1).
    destruct (IH (thread_step t e w)) as (cs2 & E2 & F2).
    exists (cs1 ++ cs2). split; [by rewrite E2, E1, app_assoc |].
    apply Forall_app. split; [done |].
    rewrite (frame_chunk_size w (thread_step t e w)) in F2; [done |].
    apply frame_thread_step. reflexivity.
Qed.

Lemma thread_step_files o t e w :
  ∃ fl, recorded_files o (thread_step t e w) = recorded_files o w ++ fl ∧
        ∀ f, f ∈ fl → f ∈ fs (thread_step t e w).
Proof.
  destruct (thread_step_heap t e w) as [_ [E | [(th & _ & _ & E) | (th & f & _ & _ & Hf & E)]]];
    rewrite (recorded_files_heap_eq o _ _ E).
  - exists []. rewrite app_nil_r. split; [done |]. by intros ? ?%elem_of_nil.
  - rewrite recorded_files_append_chunk. exists []. rewrite app_nil_r.
    split; [done |]. by intros ? ?%elem_of_nil.
  - destruct (recorded_files_append_temp_file (th_self th) o f w) as [-> | [-> ->]].
    + exists []. rewrite app_nil_r. split; [done |]. by intros ? ?%elem_of_nil.
    + exists [f]. split; [done |]. by intros ? ->%list_elem_of_singleton.
Qed.

Lemma fs_run_sched_mono s w : fs w ⊆ fs (run_sched s w).
Proof.
  revert w. induction s as [|[t e] s IH]; intros w; simpl; [done |].
  change (foldl _ (thread_step t e w) s) with (run_sched s (thread_step t e w)).
  etrans; [apply (thread_step_heap t e w) | apply IH].
Qed.

(** X6: while the workers run, no file is deleted, the list of recorded temp
    files of a storage generator only grows at its end, and every name added
    is the name of a file that exists. *)
Theorem X6_files_recorded_after_written (o : oid) (s : schedule) (w : world) :
  fs w ⊆ fs (run_sched s w) ∧
  ∃ fl, recorded_files o (run_sched s w) = recorded_files o w ++ fl ∧
        ∀ f, f ∈ fl → f ∈ fs (run_sched s w).
Proof.
  split; [apply fs_run_sched_mono |].
  revert w. induction s as [|[t e] s IH]; intros w; simpl.
  - exists []. rewrite app_nil_r. split; [done |]. by intros ? ?%elem_of_nil.
  - change (foldl _ (thread_step t e w) s) with (run_sched s (thread_step t e w)).
    destruct (thread_step_files o t e w) as (fl1 & E1 & F1).
    destruct (IH (thread_step t e w)) as (fl2 & E2 & F2).
    exists (fl1 ++ fl2). split; [by rewrite E2, E1, app_assoc |].
    intros f [H | H]%elem_of_app; [| by apply F2].
    apply (fs_run_sched_mono s (thread_step t e w)). by apply F1.
Qed.

(** ** Running flags *)

Lemma obj_running_obj_update o o' f w :
  (∀ g, running (f g) = running g) →
  obj_running o' (obj_update o f w) = obj_running o' w.
Proof.
  intros Hf. unfold obj_running, obj_update. simpl.
  destruct (decide (o = o')) as [->|Hne].
  - rewrite list_lookup_alter_eq. destruct (heap w !! o'); simpl; [apply Hf | done].
  - by rewrite list_lookup_alter_ne.
Qed.

Lemma obj_running_append_chunk o o' c w :
  obj_running o' (append_chunk o c w) = obj_running o' w.
Proof. apply obj_running_obj_update. intros g. by destruct (fields g). Qed.

Lemma obj_running_append_temp_file o o' f w :
  obj_running o' (append_temp_file o f w) = obj_running o' w.
Proof. apply obj_running_obj_update. intros g. by destruct (fields g). Qed.

(** Workers read the running flag; they never write it. *)
Lemma obj_running_thread_step o t e w :
  obj_running o (thread_step t e w) = obj_running o w.
Proof.
  destruct (thread_step_heap t e w) as [_ [E | [(th & _ & _ & E) | (th & f & _ & _ & _ & E)]]];
    rewrite (obj_running_heap_eq o _ _ E);
    auto using obj_running_append_chunk, obj_running_append_temp_file.
Qed.

Lemma obj_running_run_sched o s w : obj_running o (run_sched s w) = obj_running o w.
Proof. apply (foldl_inv _ (obj_running o)). intros. apply obj_running_thread_step. Qed.

Lemma obj_running_set_false o o' w :
  obj_running o' (obj_update o (set_running false) w)
  = if decide (o = o') then false else obj_running o' w.
Proof.
  unfold obj_running, obj_update. simpl. destruct (decide (o = o')) as [->|Hne].
  - rewrite list_lookup_alter_eq. by destruct (heap w !! o').
  - by rewrite list_lookup_alter_ne.
Qed.

Lemma obj_running_stop_base js o o' w :
  obj_running o' (WorkloadGenerator_stop js o w)
  = if decide (o = o') then false else obj_running o' w.
Proof.
  unfold WorkloadGenerator_stop. destruct (heap w !! o) as [g|] eqn:Hg.
  - change (obj_running o' (logger INFO (MsgStopped (name g)) ?x)) with (obj_running o' x).
    rewrite (foldl_inv _ (obj_running o')).
    + apply obj_running_set_false.
    + intros w1 t. case_match; [apply obj_running_run_sched | done].
  - case_decide; [| done]. subst. unfold obj_running. by rewrite Hg.
Qed.

Lemma obj_running_stop_0 js o o' w :
  obj_running o' (stop_n 0 js o w) = if decide (o = o') then false else obj_running o' w.
Proof.
  simpl. pose proof (obj_running_stop_base js o o' w) as H.
  unfold WorkloadGenerator_stop in *.
  destruct (heap w !! o) as [g|] eqn:Hg; [by destruct (fields g) | done].
Qed.

Lemma obj_running_foldl_stop_0 js cs o' w :
  obj_running o' (foldl (λ w c, stop_n 0 js c w) w cs)
  = if decide (o' ∈ cs) then false else obj_running o' w.
Proof.
  revert w. induction cs as [|c cs IH]; intros w; cbn [foldl].
  - rewrite decide_False; [done | by intros ?%elem_of_nil].
  - rewrite IH, obj_running_stop_0.
    destruct (decide (o' ∈ cs)), (decide (c = o')); subst;
      rewrite ?decide_True by set_solver; try done.
    rewrite decide_False; [done | set_solver].
Qed.

Lemma stop_n_S n js o w :
  stop_n (S n) js o w
  = match heap w !! o with
    | None => w
    | Some g =>
      let w := WorkloadGenerator_stop js o w in
      match fields g with
      | MixedWorkload ws => foldl (λ w c, stop_n n js c w) w ws
      | _ => w
      end
    end.
Proof. reflexivity. Qed.

(** The flags after [stop]: cleared for the generator and its children,
    unchanged for every other object. *)
Lemma obj_running_stop js o o' w :
  obj_running o' (stop js o w)
  = if decide (o' ∈ family o w) then false else obj_running o' w.
Proof.
  unfold stop, family, obj_children. rewrite stop_n_S.
  destruct (heap w !! o) as [g|] eqn:Hg.
  - cbv zeta.
    destruct (fields g) as [| | | |ws];
      try (rewrite obj_running_stop_base; destruct (decide (o = o')); subst;
           [by rewrite decide_True by set_solver
           | rewrite decide_False; [done | set_solver]]).
    rewrite obj_running_foldl_stop_0, obj_running_stop_base.
    destruct (decide (o' ∈ ws)), (decide (o = o')); subst;
      rewrite ?decide_True by set_solver; try done.
    rewrite decide_False; [done | set_solver].
  - destruct (decide (o' ∈ [o])) as [->%list_elem_of_singleton|]; [| done].
    unfold obj_running. by rewrite Hg.
Qed.

(** X7: after [stop], the running flag of the generator and of each child of
    a mixed generator is cleared, whatever the joins amount to (a worker that
    never joins included); the flag of every other object is as before. *)
Theorem X7_stop_clears_family_flags (js : tid → schedule) (o o' : oid) (w : world) :
  (o' ∈ family o w → obj_running o' (stop js o w) = false) ∧
  (o' ∉ family o w → obj_running o' (stop js o w) = obj_running o' w).
Proof.
  rewrite obj_running_stop. split; intros H.
  - by rewrite decide_True.
  - by rewrite decide_False.
Qed.

(** ** Quiescence *)

Lemma obj_running_cleanup_n n rm c o w :
  obj_running o (cleanup_n n rm c w) = obj_running o w.
Proof.
  revert c w. induction n as [|n IH]; intros c w; simpl;
    (destruct (heap w !! c) as [g|]; [| done]);
    destruct (fields g); try done;
    try (rewrite obj_running_obj_update by done);
    try (apply obj_running_heap_eq, heap_foldl_remove);
    try done.
  by apply (foldl_inv _ (obj_running o)).
Qed.

Lemma thread_step_exited t th e w :
  thread_table w !! t = Some th → th_pc th = Exited → thread_step t e w = w.
Proof. intros Ht Hpc. unfold thread_step. by rewrite Ht, Hpc. Qed.

Lemma thread_step_at_top_stopped t th e w :
  thread_table w !! t = Some th → th_pc th = AtTop → obj_running (th_self th) w = false →
  thread_step t e w = set_pc t Exited w.
Proof. intros Ht Hpc Hr. unfold thread_step. by rewrite Ht, Hpc, Hr. Qed.

(** A step changes no object but the generator of the thread that steps. *)
Lemma thread_step_heap_other t th e w o :
  thread_table w !! t = Some th → o ≠ th_self th →
  heap (thread_step t e w) !! o = heap w !! o.
Proof.
  intros Ht Hne.
  destruct (thread_step_heap t e w)
    as [_ [E | [(th' & Ht' & _ & E) | (th' & f & Ht' & _ & _ & E)]]];
    rewrite E; [done | |]; simplify_eq; unfold append_chunk, append_temp_file;
    by apply lookup_obj_update_ne.
Qed.

Lemma quiescent_thread_step o t e w :
  quiescent o w →
  quiescent o (thread_step t e w) ∧ heap (thread_step t e w) !! o = heap w !! o.
Proof.
  intros [Hflag Hpos].
  destruct (thread_table w !! t) as [th|] eqn:Ht.
  2: { unfold thread_step. rewrite Ht. by split. }
  destruct (decide (th_self th = o)) as [Hself|Hself].
  - destruct (Hpos t th Ht Hself) as [Hpc|Hpc].
    + rewrite (thread_step_at_top_stopped t th e w Ht Hpc) by (by rewrite Hself).
      split; [| done]. split; [done |]. intros t0 th0. simpl.
      destruct (decide (t = t0)) as [->|Hne].
      * rewrite list_lookup_alter_eq, Ht. simpl. intros; simplify_eq. by right.
      * rewrite list_lookup_alter_ne by done. apply Hpos.
    + rewrite (thread_step_exited t th e w Ht Hpc). by split.
  - split; [| by apply (thread_step_heap_other t th)].
    split; [by rewrite obj_running_thread_step |].
    intros t0 th0 Ht0 Hself0.
    destruct (thread_step_table t e w) as [E | (th' & p & Ht' & _ & E & _)];
      rewrite E in Ht0; [by apply (Hpos t0 th0) |].
    destruct (decide (t = t0)) as [->|Hne].
    + rewrite list_lookup_alter_eq, Ht in Ht0. simpl in Ht0. by simplify_eq.
    + rewrite list_lookup_alter_ne in Ht0 by done. by apply (Hpos t0 th0).
Qed.

Lemma quiescent_run_sched o s w :
  quiescent o w →
  quiescent o (run_sched s w) ∧ heap (run_sched s w) !! o = heap w !! o.
Proof.
  revert w. induction s as [|[t e] s IH]; intros w H; simpl; [done |].
  change (foldl _ (thread_step t e w) s) with (run_sched s (thread_step t e w)).
  destruct (quiescent_thread_step o t e w H) as [H1 E1].
  destruct (IH _ H1) as [H2 E2]. split; [done | congruence].
Qed.

(** X8: once the running flag of a generator is cleared and none of its
    workers is inside an iteration, nothing the workers do afterwards touches
    the generator: it stays quiescent and its object, its retained buffers
    and its recorded files included, stays exactly as it is. *)
Theorem X8_quiescent_generator_is_stable (o : oid) (s : schedule) (w : world) :
  quiescent o w →
  quiescent o (run_sched s w) ∧
  heap (run_sched s w) !! o = heap w !! o ∧
  owned_chunks o (run_sched s w) = owned_chunks o w ∧
  recorded_files o (run_sched s w) = recorded_files o w.
Proof.
  intros H. destruct (quiescent_run_sched o s w H) as [H1 E].
  split; [done |]. split; [done |].
  unfold owned_chunks, recorded_files. by rewrite E.
Qed.

Lemma frame_obj_children w w' o : frame w w' → obj_children o w' = obj_children o w.
Proof.
  unfold frame, obj_children. intros H.
  destruct (heap w !! o) as [g|] eqn:E.
  - eapply Forall2_lookup_l in E as (g' & Hg' & Hk); [| exact H].
    rewrite Hg'. destruct Hk as (_ & _ & _ & _ & Hc).
    destruct (fields g), (fields g'); simpl in Hc; by subst.
  - apply Forall2_length in H. apply lookup_ge_None in E.
    rewrite (proj2 (lookup_ge_None _ _)); [done | lia].
Qed.

Lemma frame_family w w' o : frame w w' → family o w' = family o w.
Proof. intros H. unfold family. by rewrite (frame_obj_children w w'). Qed.

(** X9: if, when [stop] returns, no worker of a generator of the family is
    inside an iteration (each has exited or stands at the loop test), then
    after [cleanup] that generator retains no buffer and no recorded file,
    and this remains so however the workers are scheduled afterwards. *)
Theorem X9_stop_cleanup_stays_clean (js : tid → schedule) (rm : string → bool)
    (s : schedule) (o c : oid) (w : world) :
  let w1 := stop js o w in
  c ∈ family o w →
  (∀ t th, thread_table w1 !! t = Some th → th_self th = c →
     th_pc th = AtTop ∨ th_pc th = Exited) →
  clean c (run_sched s (cleanup rm o w1)).
Proof.
  intros w1 Hc Hpos.
  assert (F1 : frame w w1) by (apply frame_stop_n; reflexivity).
  assert (Hq : quiescent c (cleanup rm o w1)).
  { split.
    - unfold cleanup. rewrite obj_running_cleanup_n.
      fold w1. subst w1. rewrite obj_running_stop. by rewrite decide_True.
    - unfold cleanup. rewrite thread_table_cleanup_n. exact Hpos. }
  destruct (cleanup_artifacts rm o w1 c) as (H1 & H2 & _).
  { by rewrite (frame_family w w1). }
  destruct (quiescent_run_sched c s _ Hq) as [_ E].
  unfold clean, owned_chunks, recorded_files in *. by rewrite E.
Qed.

(** ** Starting *)

Global Instance same_object_refl : Reflexive same_object.
Proof. by intros g. Qed.

Global Instance same_object_trans : Transitive same_object.
Proof. intros a b c (?&?&?&?) (?&?&?&?). repeat split; congruence. Qed.

Global Instance start_frame_refl : Reflexive start_frame.
Proof. intros w. split; [reflexivity | done]. Qed.

Global Instance start_frame_trans : Transitive start_frame.
Proof. intros w1 w2 w3 [H1 E1] [H2 E2]. split; [by etrans | congruence]. Qed.

Lemma start_frame_obj_update w0 w o f :
  (∀ g, same_object g (f g)) → start_frame w0 w → start_frame w0 (obj_update o f w).
Proof.
  intros Hf [H E]. split; [| done]. simpl.
  apply Forall2_alter_r; [done |]. intros x y _ _ Hxy. etrans; [exact Hxy | apply Hf].
Qed.

Lemma start_frame_spawn w0 w tg o : start_frame w0 w → start_frame w0 (spawn tg o w).
Proof.
  intros H. unfold spawn.
  apply start_frame_obj_update; [done |]. destruct H. by split.
Qed.

Lemma start_frame_start_base w0 w o :
  start_frame w0 w → start_frame w0 (WorkloadGenerator_start o w).
Proof.
  intros H. unfold WorkloadGenerator_start. case_match; [| done].
  destruct (start_frame_obj_update w0 w o (set_running true)) as [H1 E1]; [done | done |].
  by split.
Qed.

Lemma start_frame_foldl {A} (f : world → A → world) (l : list A) w0 w :
  (∀ w a, start_frame w0 w → start_frame w0 (f w a)) →
  start_frame w0 w → start_frame w0 (foldl f w l).
Proof. intros Hf. revert w. induction l; simpl; auto. Qed.

Lemma start_frame_start_n n w0 w o : start_frame w0 w → start_frame w0 (start_n n o w).
Proof.
  revert o w. induction n as [|n IH]; intros o w H; simpl;
    (destruct (heap w !! o) as [g|]; [| done]);
    destruct (fields g);
    auto using start_frame_foldl, start_frame_spawn, start_frame_start_base.
Qed.

Lemma start_frame_lookup w w' o g :
  start_frame w w' → heap w !! o = Some g →
  ∃ g', heap w' !! o = Some g' ∧ same_object g g'.
Proof. intros [H _] E. eapply Forall2_lookup_l in E; [exact E | exact H]. Qed.

Lemma start_frame_obj_units w w' o : start_frame w w' → obj_units o w' = obj_units o w.
Proof.
  intros H. unfold obj_units. destruct (heap w !! o) as [g|] eqn:E.
  - destruct (start_frame_lookup w w' o g H E) as (g' & -> & (_ & _ & _ & ->)).
    destruct H as [_ Hc]. unfold units. by rewrite Hc.
  - destruct H as [H _]. apply Forall2_length in H. apply lookup_ge_None in E.
    rewrite (proj2 (lookup_ge_None _ _)); [done | lia].
Qed.

Lemma start_frame_obj_children w w' o : start_frame w w' → obj_children o w' = obj_children o w.
Proof.
  intros H. unfold obj_children. destruct (heap w !! o) as [g|] eqn:E.
  - by destruct (start_frame_lookup w w' o g H E) as (g' & -> & (_ & _ & _ & ->)).
  - destruct H as [H _]. apply Forall2_length in H. apply lookup_ge_None in E.
    rewrite (proj2 (lookup_ge_None _ _)); [done | lia].
Qed.

(** *** The threads a start creates *)

Lemma foldl_spawn_table {A} (tg : A → target) (l : list A) o w :
  thread_table (foldl (λ w i, spawn (tg i) o w) w l)
  = thread_table w ++ map (λ i, Build_Thread (tg i) o AtTop true) l.
Proof.
  revert w. induction l as [|a l IH]; intros w; simpl; [by rewrite app_nil_r |].
  rewrite IH. simpl. by rewrite <- app_assoc.
Qed.

Lemma thread_table_start_base o w :
  thread_table (WorkloadGenerator_start o w) = thread_table w.
Proof. unfold WorkloadGenerator_start. by case_match. Qed.

Lemma cpu_count_start_base o w : cpu_count (WorkloadGenerator_start o w) = cpu_count w.
Proof. unfold WorkloadGenerator_start. by case_match. Qed.

Lemma Forall_new_worker_map {A} (tg : A → target) (l : list A) (o : oid) :
  Forall (new_worker [o]) (map (λ i, Build_Thread (tg i) o AtTop true) l).
Proof.
  apply Forall_forall. intros th (i & -> & _)%list_elem_of_fmap.
  repeat split. simpl. apply list_elem_of_here.
Qed.

Lemma start_0_table c w :
  ∃ new, thread_table (start_n 0 c w) = thread_table w ++ new ∧
         length new = obj_units c w ∧ Forall (new_worker [c]) new.
Proof.
  unfold obj_units. cbn [start_n]. destruct (heap w !! c) as [g|].
  2: { exists []. by rewrite app_nil_r. }
  destruct (fields g); cbn [units].
  - rewrite foldl_spawn_table, thread_table_start_base, cpu_count_start_base.
    eexists. split; [done |]. rewrite length_map, length_seq.
    split; [done |]. apply Forall_new_worker_map.
  - unfold spawn. simpl. rewrite thread_table_start_base.
    eexists. split; [done |]. split; [done |].
    apply (Forall_new_worker_map (λ _ : unit, memory_stress) [()]).
  - rewrite foldl_spawn_table, thread_table_start_base.
    eexists. split; [done |]. split; [done |]. apply Forall_new_worker_map.
  - unfold spawn. simpl. rewrite thread_table_start_base.
    eexists. split; [done |]. split; [done |].
    apply (Forall_new_worker_map (λ _ : unit, storage_stress) [()]).
  - rewrite thread_table_start_base. exists []. by rewrite app_nil_r.
Qed.

Lemma new_worker_mono (l1 l2 : list oid) th : l1 ⊆ l2 → new_worker l1 th → new_worker l2 th.
Proof. intros H (? & ? & ?). repeat split; auto. Qed.

Lemma foldl_start_0_table cs w :
  ∃ new, thread_table (foldl (λ w c, start_n 0 c w) w cs) = thread_table w ++ new ∧
         length new = sum_list (map (λ c, obj_units c w) cs) ∧
         Forall (new_worker cs) new.
Proof.
  revert w. induction cs as [|c cs IH]; intros w; cbn [foldl].
  - exists []. by rewrite app_nil_r.
  - destruct (start_0_table c w) as (n1 & E1 & L1 & F1).
    destruct (IH (start_n 0 c w)) as (n2 & E2 & L2 & F2).
    exists (n1 ++ n2). split; [by rewrite E2, E1, app_assoc |]. split.
    + rewrite length_app, L1, L2.
      rewrite (map_ext (λ c', obj_units c' (start_n 0 c w)) (λ c', obj_units c' w));
        [reflexivity |].
      intros c'. apply start_frame_obj_units. apply start_frame_start_n. reflexivity.
    + apply Forall_app. split.
      * eapply Forall_impl; [exact F1 |]. intros th. apply new_worker_mono. set_solver.
      * eapply Forall_impl; [exact F2 |]. intros th. apply new_worker_mono. set_solver.
Qed.

Lemma start_leaf_eq o w g :
  heap w !! o = Some g → (∀ ws, fields g ≠ MixedWorkload ws) → start o w = start_n 0 o w.
Proof.
  intros Hg Hm. unfold start. rewrite start_n_S. cbn [start_n]. rewrite Hg. cbv zeta.
  destruct (fields g); try done. by destruct (Hm workloads).
Qed.

Lemma start_table (o : oid) (w : world) :
  ∃ new, thread_table (start o w) = thread_table w ++ new ∧
         length new
         = obj_units o w + sum_list (map (λ c, obj_units c w) (obj_children o w)) ∧
         Forall (new_worker (family o w)) new.
Proof.
  destruct (heap w !! o) as [g|] eqn:Hg.
  2: { unfold start, family, obj_children, obj_units. rewrite start_n_S, Hg.
       exists []. by rewrite app_nil_r. }
  destruct (fields g) as [| | | |ws] eqn:Hf.
  1-4: rewrite (start_leaf_eq o w g Hg) by (by rewrite Hf);
       destruct (start_0_table o w) as (new & E & L & F);
       exists new; split; [done |];
       unfold family, obj_children; rewrite Hg, Hf; split; [by rewrite L, Nat.add_0_r | done].
  unfold start, family, obj_children, obj_units. rewrite start_n_S, Hg, Hf. cbv zeta.
  destruct (foldl_start_0_table ws (WorkloadGenerator_start o w)) as (new & E & L & F).
  exists new. rewrite thread_table_start_base in E. split; [done |]. split.
  - rewrite L. cbn [units Nat.add]. apply (f_equal sum_list). apply map_ext. intros c.
    apply (start_frame_obj_units w). apply start_frame_start_base. reflexivity.
  - eapply Forall_impl; [exact F |]. intros th. apply new_worker_mono. set_solver.
Qed.

(** X10: [start] adds to the thread table, after the threads already there,
    one new thread per execution unit of the generator and of each child of a
    mixed generator ([psutil.cpu_count()] for CPU, 1 for memory, 3 for
    network, 1 for storage); each new thread is a daemon, belongs to the
    generator or a child, and has not yet tested the running flag. *)
Theorem X10_start_creates_workers (o : oid) (w : world) :
  ∃ new, thread_table (start o w) = thread_table w ++ new ∧
         length new
         = obj_units o w + sum_list (map (λ c, obj_units c w) (obj_children o w)) ∧
         Forall (new_worker (family o w)) new.
Proof. apply start_table. Qed.
(** *** The flags after a start *)

Lemma obj_running_out_of_heap o w : ¬ (o < length (heap w))%nat → obj_running o w = false.
Proof.
  intros H. unfold obj_running. rewrite (proj2 (lookup_ge_None _ _)); [done | lia].
Qed.

Lemma obj_running_spawn tg o o' w : obj_running o' (spawn tg o w) = obj_running o' w.
Proof. unfold spawn. by rewrite obj_running_obj_update. Qed.

Lemma obj_running_start_base o o' w :
  obj_running o' (WorkloadGenerator_start o w)
  = if decide (o = o') then bool_decide (o' < length (heap w))%nat else obj_running o' w.
Proof.
  unfold WorkloadGenerator_start. destruct (heap w !! o) as [g|] eqn:Hg.
  - change (obj_running o' (logger INFO ?m ?x)) with (obj_running o' x).
    unfold obj_running, obj_update. simpl. destruct (decide (o = o')) as [->|Hne].
    + rewrite list_lookup_alter_eq, Hg. simpl. symmetry. apply bool_decide_eq_true.
      by apply lookup_lt_Some in Hg.
    + by rewrite list_lookup_alter_ne.
  - destruct (decide (o = o')) as [->|]; [| done].
    apply lookup_ge_None in Hg. rewrite obj_running_out_of_heap by lia.
    symmetry. apply bool_decide_eq_false. lia.
Qed.

Lemma obj_running_start_0 c o' w :
  obj_running o' (start_n 0 c w)
  = if decide (c = o') then bool_decide (o' < length (heap w))%nat else obj_running o' w.
Proof.
  pose proof (obj_running_start_base c o' w) as H. cbn [start_n].
  destruct (heap w !! c) as [g|] eqn:Hg.
  - destruct (fields g);
      rewrite ?(foldl_inv _ (obj_running o')), ?obj_running_spawn
        by (intros; apply obj_running_spawn); done.
  - unfold WorkloadGenerator_start in H. by rewrite Hg in H.
Qed.

Lemma obj_running_foldl_start_0 cs o' w :
  obj_running o' (foldl (λ w c, start_n 0 c w) w cs)
  = if decide (o' ∈ cs) then bool_decide (o' < length (heap w))%nat else obj_running o' w.
Proof.
  revert w. induction cs as [|c cs IH]; intros w; cbn [foldl].
  - rewrite decide_False; [done | by intros ?%elem_of_nil].
  - rewrite IH, obj_running_start_0, heap_length_start_n.
    destruct (decide (o' ∈ cs)), (decide (c = o')); subst;
      rewrite ?decide_True by set_solver; try done.
    rewrite decide_False; [done | set_solver].
Qed.

Lemma obj_running_start o o' w :
  obj_running o' (start o w)
  = if decide (o' ∈ family o w) then bool_decide (o' < length (heap w))%nat
    else obj_running o' w.
Proof.
  unfold start, family, obj_children. rewrite start_n_S.
  destruct (heap w !! o) as [g|] eqn:Hg.
  - cbv zeta.
    destruct (fields g) as [| | | |ws] eqn:Hf.
    1-4: pose proof (obj_running_start_0 o o' w) as H0; cbn [start_n] in H0;
         rewrite Hg, Hf in H0; cbv zeta in H0; rewrite H0;
         destruct (decide (o = o')); subst;
         [by rewrite decide_True by set_solver
         | rewrite decide_False; [done | set_solver]].
    rewrite obj_running_foldl_start_0, obj_running_start_base, heap_length_start_base.
    destruct (decide (o' ∈ ws)), (decide (o = o')); subst;
      rewrite ?decide_True by set_solver; try done.
    rewrite decide_False; [done | set_solver].
  - destruct (decide (o' ∈ [o])) as [->%list_elem_of_singleton|]; [| done].
    apply lookup_ge_None in Hg. rewrite obj_running_out_of_heap by lia.
    symmetry. apply bool_decide_eq_false. lia.
Qed.

(** X11: after [start], the running flag of the generator and of each child
    of a mixed generator is set, and the flag of every other object is as
    before. *)
Theorem X11_start_sets_family_flags (o o' : oid) (w : world) :
  (o' ∈ family o w → is_Some (heap w !! o') → obj_running o' (start o w) = true) ∧
  (o' ∉ family o w → obj_running o' (start o w) = obj_running o' w).
Proof.
  rewrite obj_running_start. split.
  - intros H Hs. rewrite decide_True by done. apply bool_decide_eq_true.
    by apply lookup_lt_is_Some.
  - intros H. by rewrite decide_False.
Qed.

(** X12: [start] has no guard against a second call: starting a generator
    that is already started appends a second set of threads to
    [self.threads], after the first set, which stays in the list. *)
Theorem X12_start_twice_doubles_workers (o : oid) (w : world) (g : WorkloadGenerator) :
  heap w !! o = Some g →
  let n := length (thread_table w) in
  let k := units (fields g) w in
  let kids := sum_list (map (λ c, obj_units c w) (obj_children o w)) in
  obj_threads o (start o w) = threads g ++ seq n k ∧
  obj_threads o (start o (start o w)) = threads g ++ seq n k ++ seq (n + k + kids) k.
Proof.
  intros Hg n k kids.
  pose proof (start_threads o w g Hg) as T1. split; [exact T1 |].
  assert (F : start_frame w (start o w)) by (apply start_frame_start_n; reflexivity).
  destruct (start_frame_lookup _ _ _ _ F Hg) as (g1 & Hg1 & (_ & _ & _ & Hf)).
  rewrite (start_threads o (start o w) g1 Hg1).
  assert (threads g1 = threads g ++ seq n k) as ->.
  { unfold obj_threads in T1. by rewrite Hg1 in T1. }
  rewrite <- app_assoc. f_equal. f_equal.
  destruct (start_table o w) as (new & E & L & _).
  rewrite E, length_app, L, Hf. unfold obj_units at 1. rewrite Hg.
  destruct F as [_ Hc].
  assert (units (fields g) (start o w) = units (fields g) w) as ->
    by (unfold units; by rewrite Hc).
  subst n k kids. by rewrite Nat.add_assoc.
Qed.

(** ** The manager's collective operations *)

Lemma start_frame_family w w' o : start_frame w w' → family o w' = family o w.
Proof. intros H. unfold family. by rewrite (start_frame_obj_children w w'). Qed.

Lemma foldl_start_flags os c w :
  (c < length (heap w))%nat →
  (obj_running c w = true ∨ ∃ o, o ∈ os ∧ c ∈ family o w) →
  obj_running c (foldl (λ w o, start o w) w os) = true.
Proof.
  revert w. induction os as [|o1 os IH]; intros w Hc H; cbn [foldl].
  - destruct H as [H | (o & Ho & _)]; [done | by apply elem_of_nil in Ho].
  - assert (F : start_frame w (start o1 w)) by (apply start_frame_start_n; reflexivity).
    apply IH; [unfold start; by rewrite heap_length_start_n |].
    rewrite obj_running_start.
    destruct (decide (c ∈ family o1 w)) as [Hin|Hnin].
    { left. by apply bool_decide_eq_true. }
    destruct H as [H | (o & Ho & Hfam)]; [by left |].
    apply elem_of_cons in Ho as [-> | Ho]; [done |].
    right. exists o. split; [done |]. by rewrite (start_frame_family w).
Qed.

(** X13: on a manager that holds at least one workload, [start_all] sets the
    manager's running flag and the running flag of every stored generator
    and of every child of a stored mixed generator, and keeps the mapping. *)
Theorem X13_start_all_sets_flags (m : LoadGeneratorManager) (w : world) (o c : oid) :
  mgr_workloads m ≠ [] →
  o ∈ values (mgr_workloads m) →
  c ∈ family o w →
  is_Some (heap w !! c) →
  mgr_running (start_all (m, w)).1 = true ∧
  mgr_workloads (start_all (m, w)).1 = mgr_workloads m ∧
  obj_running c (start_all (m, w)).2 = true.
Proof.
  intros Hne Ho Hc Hs. unfold start_all.
  destruct (mgr_workloads m) as [|kv d] eqn:E; [done |]. rewrite <- E in *.
  cbn [fst snd mgr_running mgr_workloads]. split; [done |]. split; [done |].
  change (obj_running c (logger INFO MsgAllStarted ?x)) with (obj_running c x).
  apply foldl_start_flags; [by apply lookup_lt_is_Some | eauto].
Qed.

Lemma foldl_stop_flags js os c w :
  (obj_running c w = false ∨ ∃ o, o ∈ os ∧ c ∈ family o w) →
  obj_running c (foldl (λ w o, stop js o w) w os) = false.
Proof.
  revert w. induction os as [|o1 os IH]; intros w H; cbn [foldl].
  - destruct H as [H | (o & Ho & _)]; [done | by apply elem_of_nil in Ho].
  - assert (F : frame w (stop js o1 w)) by (apply frame_stop_n; reflexivity).
    apply IH. rewrite obj_running_stop.
    destruct (decide (c ∈ family o1 w)) as [Hin|Hnin]; [by left |].
    destruct H as [H | (o & Ho & Hfam)]; [by left |].
    apply elem_of_cons in Ho as [-> | Ho]; [done |].
    right. exists o. split; [done |]. by rewrite (frame_family w).
Qed.

(** X14: [stop_all] clears the manager's running flag and the running flag
    of every stored generator and of every child of a stored mixed
    generator, whatever the joins amount to, and keeps the mapping and the
    signal flag. *)
Theorem X14_stop_all_clears_flags (js : tid → schedule) (m : LoadGeneratorManager)
    (w : world) (o c : oid) :
  o ∈ values (mgr_workloads m) →
  c ∈ family o w →
  mgr_running (stop_all js (m, w)).1 = false ∧
  mgr_workloads (stop_all js (m, w)).1 = mgr_workloads m ∧
  signal_received (stop_all js (m, w)).1 = signal_received m ∧
  obj_running c (stop_all js (m, w)).2 = false.
Proof.
  intros Ho Hc. cbn [stop_all fst snd mgr_running mgr_workloads signal_received].
  repeat split.
  change (obj_running c (logger INFO MsgAllStopped ?x)) with (obj_running c x).
  apply foldl_stop_flags. eauto.
Qed.

Lemma clean_cleanup rm o c w : clean c w → clean c (cleanup rm o w).
Proof.
  intros H. unfold cleanup. rewrite cleanup_n_S.
  destruct (heap w !! o) as [g|] eqn:Hg; [| done].
  pose proof (clean_cleanup_0 rm c o w H) as H0. cbn [cleanup_n] in H0. rewrite Hg in H0.
  destruct (fields g); try done. by apply clean_foldl_cleanup_0.
Qed.

Lemma clean_cleanup_family rm o c w : c ∈ family o w → clean c (cleanup rm o w).
Proof. intros H. destruct (cleanup_artifacts rm o w c H) as (H1 & H2 & _). by split. Qed.

Lemma foldl_cleanup_clean rm os c w :
  (clean c w ∨ ∃ o, o ∈ os ∧ c ∈ family o w) →
  clean c (foldl (λ w o, cleanup rm o w) w os).
Proof.
  revert w. induction os as [|o1 os IH]; intros w H; cbn [foldl].
  - destruct H as [H | (o & Ho & _)]; [done | by apply elem_of_nil in Ho].
  - assert (F : frame w (cleanup rm o1 w)) by (apply frame_cleanup_n; reflexivity).
    apply IH.
    destruct H as [H | (o & Ho & Hfam)]; [left; by apply clean_cleanup |].
    apply elem_of_cons in Ho as [-> | Ho]; [left; by apply clean_cleanup_family |].
    right. exists o. split; [done |]. by rewrite (frame_family w).
Qed.

Lemma obj_running_foldl_cleanup rm os c w :
  obj_running c (foldl (λ w o, cleanup rm o w) w os) = obj_running c w.
Proof. apply (foldl_inv _ (obj_running c)). intros. apply obj_running_cleanup_n. Qed.

Lemma thread_table_foldl_cleanup rm os w :
  thread_table (foldl (λ w o, cleanup rm o w) w os) = thread_table w.
Proof. apply (foldl_inv _ thread_table). intros. apply thread_table_cleanup_n. Qed.

(** X15: after [cleanup_all], every stored generator and every child of a
    stored mixed generator retains no buffer and no recorded file; the
    manager, the running flags and the thread table are untouched. *)
Theorem X15_cleanup_all_empties_artifacts (rm : string → bool) (m : LoadGeneratorManager)
    (w : world) (o c : oid) :
  o ∈ values (mgr_workloads m) →
  c ∈ family o w →
  (cleanup_all rm (m, w)).1 = m ∧
  clean c (cleanup_all rm (m, w)).2 ∧
  obj_running c (cleanup_all rm (m, w)).2 = obj_running c w ∧
  thread_table (cleanup_all rm (m, w)).2 = thread_table w.
Proof.
  intros Ho Hc. cbn [cleanup_all fst snd]. split; [done |]. split; [| split].
  - assert (H : clean c (foldl (λ w o, cleanup rm o w) w (values (mgr_workloads m))))
      by (apply foldl_cleanup_clean; eauto).
    exact H.
  - apply obj_running_foldl_cleanup.
  - apply thread_table_foldl_cleanup.
Qed.

(** ** Adding a workload *)

Lemma dict_lookup_dict_set_same {V} (k : string) (v : V) d :
  dict_lookup k (dict_set k v d) = Some v.
Proof.
  induction d as [|[k' v'] d IH]; simpl.
  - by rewrite decide_True.
  - destruct (decide (k = k')) as [<-|Hne]; simpl.
    + by rewrite decide_True.
    + by rewrite decide_False.
Qed.

Lemma dict_lookup_dict_set_ne {V} (k k' : string) (v : V) d :
  k' ≠ k → dict_lookup k' (dict_set k v d) = dict_lookup k' d.
Proof.
  intros Hne. induction d as [|[k0 v0] d IH]; simpl.
  - by rewrite decide_False.
  - destruct (decide (k = k0)) as [<-|Hne0]; simpl.
    + by rewrite !decide_False.
    + by rewrite IH.
Qed.

Lemma length_dict_set {V} (k : string) (v : V) d :
  length (dict_set k v d)
  = match dict_lookup k d with Some _ => length d | None => S (length d) end.
Proof.
  induction d as [|[k' v'] d IH]; simpl; [done |].
  destruct (decide (k = k')) as [<-|Hne]; simpl; [done |].
  rewrite IH. by destruct (dict_lookup k d).
Qed.

(** The object a constructor returns: of the class asked for, with the
    profile of the intensity label, not running, without threads; and no
    object created along with it has a thread or is running. *)
Lemma construct_new cls label w :
  let '(o, w') := construct cls label w in
  (∃ g, heap w' !! o = Some g ∧ name g = class_name cls ∧ intensity g = label ∧
        running g = false ∧ threads g = [] ∧ config g = config_of label ∧
        is_instance cls (fields g)) ∧
  (∀ c, (length (heap w) ≤ c)%nat → obj_threads c w' = [] ∧ obj_running c w' = false) ∧
  Forall (λ c, (length (heap w) ≤ c)%nat) (obj_children o w').
Proof.
  destruct cls; [simpl .. |].
  1-4: split; [| split];
       [ rewrite lookup_app_r, Nat.sub_diag by lia; simpl; eexists; by repeat split
       | intros c Hc; unfold obj_threads, obj_running; simpl;
         rewrite lookup_app_r by lia;
         by destruct (c - length (heap w))%nat as [|[|]]
       | unfold obj_children; simpl;
         rewrite lookup_app_r, Nat.sub_diag by lia; simpl; constructor ].
  split; [| split].
  - simpl. rewrite <- !app_assoc. simpl.
    rewrite list_lookup_alter_eq, lookup_app_r, Nat.sub_diag by lia. simpl.
    eexists. by repeat split.
  - intros c Hc. unfold obj_threads, obj_running. simpl. rewrite <- !app_assoc. simpl.
    destruct (decide (length (heap w) = c)) as [<-|Hne].
    + rewrite list_lookup_alter_eq, lookup_app_r, Nat.sub_diag by lia. done.
    + rewrite list_lookup_alter_ne, lookup_app_r by lia.
      by destruct (c - length (heap w))%nat as [|[|[|[|[|[|]]]]]].
  - unfold obj_children. simpl. rewrite <- !app_assoc. simpl.
    rewrite list_lookup_alter_eq, lookup_app_r, Nat.sub_diag by lia. simpl.
    rewrite !length_app. simpl.
    repeat (apply Forall_cons; split; [lia |]). apply Forall_nil_2.
Qed.

(** X16: for a key of [workload_map], [add_workload] raises nothing and
    stores under the key a newly created generator of the class the key
    names, with the profile of the intensity label, not running and without
    threads (its children, if any, likewise); the entries under all other
    keys and the manager's flags are unchanged. *)
Theorem X16_add_stores_idle_generator (k label : string) (cls : workload_class)
    (m : LoadGeneratorManager) (w : world) :
  workload_map !! k = Some cls →
  let r := add_workload k label (m, w) in
  let o := length (heap w) in
  r.1 = None ∧
  dict_lookup k (mgr_workloads r.2.1) = Some o ∧
  (∀ k', k' ≠ k → dict_lookup k' (mgr_workloads r.2.1) = dict_lookup k' (mgr_workloads m)) ∧
  mgr_running r.2.1 = mgr_running m ∧
  signal_received r.2.1 = signal_received m ∧
  (∃ g, heap r.2.2 !! o = Some g ∧ name g = class_name cls ∧ intensity g = label ∧
        running g = false ∧ threads g = [] ∧ config g = config_of label ∧
        is_instance cls (fields g)) ∧
  never_started o r.2.2.
Proof.
  intros Hcls r o. subst r. unfold add_workload. rewrite Hcls.
  pose proof (construct_extends cls label w) as E.
  pose proof (construct_new cls label w) as N.
  destruct (construct cls label w) as [o' w']. destruct E as (-> & _).
  destruct N as (Hg & Hidle & Hkids). cbn [fst snd mgr_workloads mgr_running signal_received].
  split; [done |]. split; [apply dict_lookup_dict_set_same |].
  split; [intros; by apply dict_lookup_dict_set_ne |].
  split; [done |]. split; [done |]. split; [exact Hg |].
  split.
  - apply (Hidle o). subst o. lia.
  - intros c Hc. apply (Hidle c). rewrite Forall_forall in Hkids. by apply Hkids.
Qed.

(** ** The mapping, the profile table and the run loop *)

(** X17: in every state a manager can reach, each key of the mapping holds at
    most one generator, every stored generator is an object of the heap, and
    every key is one of the five recognized workload types. *)
Theorem X17_mapping_invariant (st : state) : reachable st → wf_state st.
Proof. apply wf_state_reachable. Qed.

(** X18: whatever the intensity label, known or not, the resolved profile is
    one of the four rows of the table; so its CPU target lies between 20 and
    80 percent, its memory target between 100 and 500 MB, and its duration
    between 30 and 120. *)
Theorem X18_profile_within_table (label : string) :
  config_of label ∈ profile_rows ∧
  (20 ≤ cpu_percent (config_of label) ≤ 80)%Z ∧
  (100 ≤ memory_mb (config_of label) ≤ 500)%Z ∧
  (30 ≤ duration (config_of label) ≤ 120)%Z.
Proof.
  assert (H : config_of label ∈ profile_rows).
  { unfold config_of, dict_get, intensity_levels, profile_rows.
    rewrite !lookup_insert, lookup_empty.
    repeat case_decide; simpl; set_solver. }
  split; [exact H |]. unfold profile_rows in H.
  repeat (apply elem_of_cons in H as [-> | H]); [| | | | by apply elem_of_nil in H];
    simpl; lia.
Qed.

(** X19: with a workload type outside the five recognized ones, [main]
    raises [ValueError] before its [try] statement: apart from the three
    start-up log records the world is as it was, so no generator exists, no
    thread was started, and neither [stop_all] nor [cleanup_all] ran. *)
Theorem X19_main_unknown_type (cfg : settings) (env : main_env) (w : world) :
  WORKLOAD_TYPE cfg ∉ ["cpu"; "memory"; "network"; "storage"; "mixed"] →
  main cfg env w
  = Some (Some (ValueError (WORKLOAD_TYPE cfg)),
          (LoadGeneratorManager_init,
           w |> logger INFO MsgMainStarting
             |> logger INFO (MsgMainConfig (WORKLOAD_TYPE cfg) (LOAD_INTENSITY cfg)
                               (DURATION cfg))
             |> logger INFO (MsgMetricsServer (METRICS_PORT cfg)))).
Proof.
  intros H. unfold main. cbv zeta. unfold add_workload.
  by rewrite (workload_map_unknown _ H).
Qed.

Lemma poll_workloads fuel tks i start_time now dur m w r m' w' :
  poll fuel tks i start_time now dur (m, w) = Some (r, (m', w')) →
  mgr_workloads m' = mgr_workloads m ∧
  frame w w' ∧ threads_kept w w'.
Proof.
  revert i now w. induction fuel as [|fuel IH]; intros i now w; cbn [poll].
  - destruct (_ && _); intros; simplify_eq. by repeat split.
  - destruct (_ && _); [| intros; simplify_eq; by repeat split].
    assert (F1 : frame w (run_sched (during (tks i)) w))
      by (apply frame_run_sched; reflexivity).
    assert (K1 : threads_kept w (run_sched (during (tks i)) w))
      by (apply threads_kept_run_sched; reflexivity).
    destruct (happens (tks i)) as [extra|signum| |].
    + intros H. apply IH in H as (E & F & K). split; [done |]. split.
      * etrans; [| exact F]. case_match; [by apply frame_logger | done].
      * etrans; [| exact K]. case_match; [| done].
        by apply (threads_kept_table_eq w (run_sched (during (tks i)) w)).
    + intros H. simplify_eq. cbn [signal_handler stop_all] in *. simplify_eq.
      split; [done |]. split.
      * apply frame_logger, frame_foldl; [intros; by apply frame_stop_n |].
        by apply frame_logger.
      * eapply threads_kept_table_eq; [reflexivity |]. cbn [thread_table logger upd_log].
        apply threads_kept_foldl; [intros; by apply threads_kept_stop_n |].
        by apply (threads_kept_table_eq w (run_sched (during (tks i)) w)).
    + intros; simplify_eq. by repeat split.
    + intros; simplify_eq. by repeat split.
Qed.


(** The positions of threads always fit their targets. *)
Lemma wf_thread_step t t0 th0 e w :
  thread_table w !! t0 = Some th0 → wf_thread th0 →
  ∃ th', thread_table (thread_step t e w) !! t0 = Some th' ∧ wf_thread th'.
Proof.
  intros Ht0 Hwf0. destruct (decide (t = t0)) as [->|Hne].
  2: { destruct (thread_step_table t e w) as [E | (th & p & _ & _ & E & _)]; rewrite E.
       - eauto.
       - rewrite list_lookup_alter_ne by done. eauto. }
  unfold thread_step. rewrite Ht0.
  destruct th0 as [tg o p d]. unfold wf_thread in *. cbn [th_pc th_target th_self] in *.
  destruct p as [| |i|]; [| | | eauto].
  - destruct (obj_running o w); simpl; rewrite list_lookup_alter_eq, Ht0; simpl;
      eexists; (split; [done |]); by destruct tg.
  - destruct tg as [k| |k|]; [| | done |];
      (eexists; split;
       [ unfold cpu_body, memory_body, storage_body; destruct (raised e); simpl;
         rewrite list_lookup_alter_eq, Ht0; reflexivity
       | done ]).
  - destruct tg as [k| |k|]; try done. unfold network_for, network_after.
    destruct (obj_endpoints o w !! i); [destruct (obj_running o w); cbn [negb] |];
      destruct (raised e); try case_match; simpl;
      rewrite list_lookup_alter_eq, Ht0; simpl; eexists; (split; [done |]); done.
Qed.
(** ** Cancellation, signals and files *)

Lemma thread_step_stopped_position t th e w :
  thread_table w !! t = Some th → wf_thread th →
  obj_running (th_self th) w = false →
  ∃ th', thread_table (thread_step t e w) !! t = Some th' ∧
         th_self th' = th_self th ∧ wf_thread th' ∧
         (th_pc th' = Exited ∨ (th_pc th' = AtTop ∧ th_pc th ≠ AtTop)).
Proof.
  intros Ht Hwf Hr. unfold thread_step. rewrite Ht.
  destruct th as [tg o p d]. cbn [th_pc th_target th_self] in *. unfold wf_thread in Hwf.
  cbn [th_pc th_target] in Hwf.
  destruct p as [| |i|].
  - rewrite Hr. simpl. rewrite list_lookup_alter_eq, Ht. simpl.
    eexists. split; [done |]. repeat split. by left.
  - destruct tg as [k| |k|]; [| | done |];
      (eexists; split;
       [ unfold cpu_body, memory_body, storage_body; destruct (raised e); simpl;
         rewrite list_lookup_alter_eq, Ht; reflexivity
       | repeat split; right; by split ]).
  - destruct tg as [k| |k|]; try done. unfold network_for. rewrite Hr. cbn [negb].
    eexists. split.
    + destruct (obj_endpoints o w !! i); unfold network_after; destruct (raised e); simpl;
        rewrite list_lookup_alter_eq, Ht; reflexivity.
    + repeat split. right. by split.
  - eexists. split; [done |]. split_and!; try done. by left.
Qed.

(** X21: cancellation is cooperative and prompt: once the running flag of its
    generator is cleared, a worker is dead after at most two steps of its
    own, the rest of the current iteration and the loop test; the network
    worker leaves its [for] loop at the next endpoint. *)
Theorem X21_worker_exits_within_two_steps (t : tid) (th : Thread) (e1 e2 : env) (w : world) :
  thread_table w !! t = Some th →
  wf_thread th →
  obj_running (th_self th) w = false →
  is_alive t (thread_step t e2 (thread_step t e1 w)) = false.
Proof.
  intros Ht Hwf Hr.
  destruct (thread_step_stopped_position t th e1 w Ht Hwf Hr)
    as (th1 & Ht1 & Hs1 & Hwf1 & Hp1).
  assert (Hr1 : obj_running (th_self th1) (thread_step t e1 w) = false)
    by (by rewrite obj_running_thread_step, Hs1).
  destruct Hp1 as [Hp1 | [Hp1 _]].
  - rewrite (thread_step_exited t th1 e2 _ Ht1 Hp1).
    rewrite (is_alive_lookup t _ th1 Ht1), Hp1. by apply bool_decide_eq_false; intros [].
  - by apply (worker_exits_when_stopped t th1).
Qed.

Lemma signal_handler_eq signum js m w :
  signal_handler signum js (m, w)
  = stop_all js (Manager (mgr_workloads m) (mgr_running m) true,
                 logger INFO (MsgSignal signum) w).
Proof. reflexivity. Qed.

(** X22: the signal handler sets [signal_received], clears the manager's
    running flag and the running flag of every stored generator and of every
    child of a stored mixed generator, calls [stop_all] exactly once, and
    keeps the mapping and every thread. *)
Theorem X22_signal_handler_stops_everything (signum : Z) (js : tid → schedule)
    (m : LoadGeneratorManager) (w : world) (o c : oid) :
  o ∈ values (mgr_workloads m) →
  c ∈ family o w →
  let st := signal_handler signum js (m, w) in
  signal_received st.1 = true ∧
  mgr_running st.1 = false ∧
  mgr_workloads st.1 = mgr_workloads m ∧
  obj_running c st.2 = false ∧
  calls (log_since w st.2) = [StopAll] ∧
  threads_kept w st.2.
Proof.
  intros Ho Hc st. subst st. rewrite signal_handler_eq.
  set (m1 := Manager _ _ _). set (w1 := logger INFO (MsgSignal signum) w).
  cbn [stop_all fst snd mgr_running mgr_workloads signal_received].
  split; [done |]. split; [done |]. split; [done |]. split; [| split].
  - change (obj_running c (logger INFO MsgAllStopped ?x)) with (obj_running c x).
    apply foldl_stop_flags. right. exists o. split; [done |].
    by change (family o w1) with (family o w).
  - apply made_calls_log_since.
    apply (made_calls_stop_all w m1 w1 js []).
    apply made_calls_logger; [done | apply made_calls_refl].
  - eapply threads_kept_table_eq; [reflexivity |]. cbn [thread_table logger upd_log].
    apply threads_kept_foldl; [intros; by apply threads_kept_stop_n |].
    by apply (threads_kept_table_eq w w).
Qed.

(** *** Files that cleanup does not touch *)

Lemma fs_remove_temp_file_other rm f f' w :
  f ≠ f' → f ∈ fs w → f ∈ fs (remove_temp_file rm f' w).
Proof. intros Hne H. unfold remove_temp_file. repeat case_match; simpl; set_solver. Qed.

Lemma fs_foldl_remove_other rm f fl w :
  f ∉ fl → f ∈ fs w → f ∈ fs (foldl (λ w f, remove_temp_file rm f w) w fl).
Proof.
  revert w. induction fl as [|f' fl IH]; intros w Hnin H; cbn [foldl]; [done |].
  apply IH; [set_solver |]. apply fs_remove_temp_file_other; [set_solver | done].
Qed.

Lemma fs_cleanup_0_other rm f c w :
  f ∉ recorded_files c w → f ∈ fs w → f ∈ fs (cleanup_n 0 rm c w).
Proof.
  unfold recorded_files. cbn [cleanup_n]. destruct (heap w !! c) as [g|]; [| done].
  destruct (fields g); try done. intros Hnin H. simpl. by apply fs_foldl_remove_other.
Qed.

Lemma recorded_files_cleanup_0 rm c c' w :
  recorded_files c' (cleanup_n 0 rm c w) = recorded_files c' w ∨
  recorded_files c' (cleanup_n 0 rm c w) = [].
Proof.
  destruct (decide (c' = c)) as [->|Hne].
  - right. apply cleanup_0_makes_clean.
  - left. unfold recorded_files. by rewrite heap_cleanup_0_ne.
Qed.

Lemma fs_foldl_cleanup_0_other rm f cs w :
  (∀ c, c ∈ cs → f ∉ recorded_files c w) → f ∈ fs w →
  f ∈ fs (foldl (λ w c, cleanup_n 0 rm c w) w cs).
Proof.
  revert w. induction cs as [|c cs IH]; intros w Hnin H; cbn [foldl]; [done |].
  apply IH.
  - intros c' Hc'.
    destruct (recorded_files_cleanup_0 rm c c' w) as [-> | ->];
      [apply Hnin; set_solver | by intros ?%elem_of_nil].
  - apply fs_cleanup_0_other; [apply Hnin; set_solver | done].
Qed.

Lemma fs_cleanup_other rm f o w :
  (∀ c, c ∈ family o w → f ∉ recorded_files c w) → f ∈ fs w → f ∈ fs (cleanup rm o w).
Proof.
  intros Hnin H. unfold cleanup, family, obj_children in *. rewrite cleanup_n_S.
  destruct (heap w !! o) as [g|] eqn:Hg; [| done].
  pose proof (fs_cleanup_0_other rm f o w) as H0. cbn [cleanup_n] in H0. rewrite Hg in H0.
  destruct (fields g) as [| | | |ws]; try done.
  - apply H0; [apply Hnin; set_solver | done].
  - apply fs_foldl_cleanup_0_other; [| done]. intros c Hc. apply Hnin. set_solver.
Qed.

Lemma fs_cleanup_mono rm f o w : f ∉ fs w → f ∉ fs (cleanup rm o w).
Proof.
  intros H. unfold cleanup. rewrite cleanup_n_S.
  destruct (heap w !! o) as [g|] eqn:Hg; [| done].
  pose proof (fs_cleanup_0_mono rm f o w H) as H0. cbn [cleanup_n] in H0. rewrite Hg in H0.
  destruct (fields g); try done. by apply fs_foldl_cleanup_0_mono.
Qed.

(** X23: [cleanup] creates no file and removes only files that the generator
    or one of its children has recorded: every other file that existed
    before still exists afterwards. *)
Theorem X23_cleanup_removes_only_recorded (rm : string → bool) (o : oid) (w : world)
    (f : string) :
  (f ∈ fs (cleanup rm o w) → f ∈ fs w) ∧
  ((∀ c, c ∈ family o w → f ∉ recorded_files c w) → f ∈ fs w → f ∈ fs (cleanup rm o w)).
Proof.
  split.
  - intros H. destruct (decide (f ∈ fs w)) as [|Hn]; [done |].
    by apply (fs_cleanup_mono rm f o w) in Hn.
  - apply fs_cleanup_other.
Qed.
(** X24: when writing the file fails in an iteration of the storage worker,
    the file exists afterwards without being recorded, the failure is counted
    once under "storage", and a later [cleanup] does not remove the file
    unless an earlier iteration had recorded the same name. *)
Theorem X24_failed_write_leaves_unrecorded_file (t : tid) (th : Thread) (e : env)
    (rm : string → bool) (o : oid) (w : world) :
  thread_table w !! t = Some th →
  th_target th = storage_stress →
  th_pc th = InBody →
  raised e = WriteFault →
  let f := storage_filename e in
  let w1 := thread_step t e w in
  f ∈ fs w1 ∧
  heap w1 = heap w ∧
  errors_total "storage" w1 = S (errors_total "storage" w) ∧
  ((∀ c, c ∈ family o w → f ∉ recorded_files c w) → f ∈ fs (cleanup rm o w1)).
Proof.
  intros Ht Htg Hpc He f w1. subst w1. unfold thread_step. rewrite Ht, Hpc, Htg.
  unfold storage_body. rewrite He. fold f.
  set (w1 := set_pc t AtTop _).
  assert (Hf : f ∈ fs w1) by (simpl; set_solver).
  assert (Hh : heap w1 = heap w) by done.
  split; [done |]. split; [done |]. split.
  - unfold errors_total. simpl. by rewrite lookup_total_insert_eq.
  - intros Hnin. apply fs_cleanup_other; [| done].
    intros c Hc. unfold family, obj_children, recorded_files in *. rewrite Hh in *.
    by apply Hnin.
Qed.

Lemma string_length_app (s t : string) :
  String.length (s +:+ t) = (String.length s + String.length t)%nat.
Proof. induction s as [|a s IH]; simpl; [done |]. by rewrite IH. Qed.

Lemma string_app_inv_r (s1 s2 t : string) : s1 +:+ t = s2 +:+ t → s1 = s2.
Proof.
  revert s2. induction s1 as [|a s1 IH]; intros [|b s2] H; try done.
  - exfalso. apply (f_equal String.length) in H.
    change ("" +:+ t) with t in H. rewrite string_length_app in H. simpl in H. lia.
  - exfalso. apply (f_equal String.length) in H.
    change ("" +:+ t) with t in H. rewrite string_length_app in H. simpl in H. lia.
  - injection H as -> H. f_equal. by apply IH.
Qed.

(** X25: the name of the scratch file is determined by the whole second in
    which the iteration starts: two iterations get the same file name exactly
    when they start within the same second. *)
Theorem X25_filename_by_second (e e' : env) :
  storage_filename e = storage_filename e' ↔ now e = now e'.
Proof.
  unfold storage_filename. split; [| by intros ->].
  intros H. apply (inj (String.app _)) in H.
  apply string_app_inv_r in H. by apply (inj pretty) in H.
Qed.

(** ** Instances *)

Lemma X1_worker_leaves_only_at_test_witness :
  is_alive 0 (thread_step 0 sample_env storage_stopping) = false ↔
  0 = 0 ∧ th_pc (Build_Thread storage_stress 0 AtTop true) = AtTop ∧
  obj_running (th_self (Build_Thread storage_stress 0 AtTop true)) storage_stopping = false.
Proof.
  apply (X1_worker_leaves_only_at_test 0 0 (Build_Thread storage_stress 0 AtTop true)
           sample_env storage_stopping).
  - vm_compute. reflexivity.
  - discriminate.
Defined.

Lemma X4_counters_by_own_label_witness :
  requests_total "network" (thread_step 0 sample_env cpu_started.2)
  = requests_total "network" cpu_started.2 ∧
  errors_total "network" (thread_step 0 sample_env cpu_started.2)
  = errors_total "network" cpu_started.2.
Proof.
  apply (X4_counters_by_own_label 0 (Build_Thread (cpu_stress 0) 0 AtTop true)).
  - vm_compute. reflexivity.
  - discriminate.
Defined.

Lemma X7_stop_clears_family_flags_witness :
  (1 ∈ family 0 mixed_state.2 → obj_running 1 (stop (λ _, []) 0 mixed_state.2) = false) ∧
  (1 ∉ family 0 mixed_state.2 →
   obj_running 1 (stop (λ _, []) 0 mixed_state.2) = obj_running 1 mixed_state.2).
Proof. exact (X7_stop_clears_family_flags (λ _, []) 0 1 mixed_state.2). Defined.

Lemma storage_stopped_quiescent : quiescent 0 storage_stopped.
Proof.
  split; [vm_compute; reflexivity |].
  intros [|t] th Ht Hs; vm_compute in Ht; [| discriminate Ht].
  injection Ht as <-. right. reflexivity.
Defined.

Lemma X8_quiescent_generator_is_stable_witness :
  quiescent 0 (run_sched [(0, sample_env); (0, sample_env)] storage_stopped) ∧
  heap (run_sched [(0, sample_env); (0, sample_env)] storage_stopped) !! 0
  = heap storage_stopped !! 0 ∧
  owned_chunks 0 (run_sched [(0, sample_env); (0, sample_env)] storage_stopped)
  = owned_chunks 0 storage_stopped ∧
  recorded_files 0 (run_sched [(0, sample_env); (0, sample_env)] storage_stopped)
  = recorded_files 0 storage_stopped.
Proof.
  apply (X8_quiescent_generator_is_stable 0 [(0, sample_env); (0, sample_env)]
           storage_stopped).
  exact storage_stopped_quiescent.
Defined.

Lemma X9_stop_cleanup_stays_clean_witness :
  clean 0 (run_sched [(0, sample_env); (0, sample_env)]
             (cleanup (λ _, false) 0 (stop (λ _, []) 0 storage_ran))).
Proof.
  apply (X9_stop_cleanup_stays_clean (λ _, []) (λ _, false)
           [(0, sample_env); (0, sample_env)] 0 0 storage_ran).
  - vm_compute. left.
  - intros [|t] th Ht Hs; vm_compute in Ht; [| discriminate Ht].
    injection Ht as <-. left. reflexivity.
Defined.

Lemma X11_start_sets_family_flags_witness :
  (1 ∈ family 0 mixed_state.2 → is_Some (heap mixed_state.2 !! 1) →
   obj_running 1 (start 0 mixed_state.2) = true) ∧
  (1 ∉ family 0 mixed_state.2 →
   obj_running 1 (start 0 mixed_state.2) = obj_running 1 mixed_state.2).
Proof. exact (X11_start_sets_family_flags 0 1 mixed_state.2). Defined.

Lemma X12_start_twice_doubles_workers_witness :
  let g := Generator "CPU" "high" false [] (Profile 80 500 120) CPUWorkload in
  let n := length (thread_table cpu_added.2) in
  let k := units (fields g) cpu_added.2 in
  let kids := sum_list (map (λ c, obj_units c cpu_added.2) (obj_children 0 cpu_added.2)) in
  obj_threads 0 (start 0 cpu_added.2) = threads g ++ seq n k ∧
  obj_threads 0 (start 0 (start 0 cpu_added.2)) = threads g ++ seq n k ++ seq (n + k + kids) k.
Proof.
  apply (X12_start_twice_doubles_workers 0 cpu_added.2).
  vm_compute. reflexivity.
Defined.

Lemma X13_start_all_sets_flags_witness :
  mgr_running (start_all (cpu_added.1, cpu_added.2)).1 = true ∧
  mgr_workloads (start_all (cpu_added.1, cpu_added.2)).1 = mgr_workloads cpu_added.1 ∧
  obj_running 0 (start_all (cpu_added.1, cpu_added.2)).2 = true.
Proof.
  apply (X13_start_all_sets_flags cpu_added.1 cpu_added.2 0 0).
  - vm_compute. discriminate.
  - vm_compute. left.
  - vm_compute. left.
  - vm_compute. eexists. reflexivity.
Defined.

Lemma X14_stop_all_clears_flags_witness :
  mgr_running (stop_all (λ _, []) (cpu_started.1, cpu_started.2)).1 = false ∧
  mgr_workloads (stop_all (λ _, []) (cpu_started.1, cpu_started.2)).1
  = mgr_workloads cpu_started.1 ∧
  signal_received (stop_all (λ _, []) (cpu_started.1, cpu_started.2)).1
  = signal_received cpu_started.1 ∧
  obj_running 0 (stop_all (λ _, []) (cpu_started.1, cpu_started.2)).2 = false.
Proof.
  apply (X14_stop_all_clears_flags (λ _, []) cpu_started.1 cpu_started.2 0 0).
  - vm_compute. left.
  - vm_compute. left.
Defined.

Lemma X15_cleanup_all_empties_artifacts_witness :
  (cleanup_all (λ _, false) (storage_manager, storage_stopped)).1 = storage_manager ∧
  clean 0 (cleanup_all (λ _, false) (storage_manager, storage_stopped)).2 ∧
  obj_running 0 (cleanup_all (λ _, false) (storage_manager, storage_stopped)).2
  = obj_running 0 storage_stopped ∧
  thread_table (cleanup_all (λ _, false) (storage_manager, storage_stopped)).2
  = thread_table storage_stopped.
Proof.
  apply (X15_cleanup_all_empties_artifacts (λ _, false) storage_manager storage_stopped 0 0).
  - vm_compute. left.
  - vm_compute. left.
Defined.

Lemma X16_add_stores_idle_generator_witness :
  let r := add_workload "cpu" "high" (LoadGeneratorManager_init, empty_world) in
  let o := length (heap empty_world) in
  r.1 = None ∧
  dict_lookup "cpu" (mgr_workloads r.2.1) = Some o ∧
  (∀ k', k' ≠ "cpu" →
     dict_lookup k' (mgr_workloads r.2.1)
     = dict_lookup k' (mgr_workloads LoadGeneratorManager_init)) ∧
  mgr_running r.2.1 = mgr_running LoadGeneratorManager_init ∧
  signal_received r.2.1 = signal_received LoadGeneratorManager_init ∧
  (∃ g, heap r.2.2 !! o = Some g ∧ name g = class_name ClsCPU ∧ intensity g = "high" ∧
        running g = false ∧ threads g = [] ∧ config g = config_of "high" ∧
        is_instance ClsCPU (fields g)) ∧
  never_started o r.2.2.
Proof.
  apply (X16_add_stores_idle_generator "cpu" "high" ClsCPU LoadGeneratorManager_init
           empty_world).
  reflexivity.
Defined.

Lemma X17_mapping_invariant_witness : wf_state cpu_started.
Proof.
  apply (X17_mapping_invariant cpu_started).
  apply reach_start_all, reach_add, reach_init.
Defined.

Lemma X19_main_unknown_type_witness :
  main (Settings "gpu" "high" 3 8000) quiet_env empty_world
  = Some (Some (ValueError "gpu"),
          (LoadGeneratorManager_init,
           empty_world |> logger INFO MsgMainStarting
             |> logger INFO (MsgMainConfig "gpu" "high" 3)
             |> logger INFO (MsgMetricsServer 8000))).
Proof.
  apply (X19_main_unknown_type (Settings "gpu" "high" 3 8000) quiet_env empty_world).
  intros H. repeat (apply elem_of_cons in H as [H | H]; [discriminate H |]).
  by apply elem_of_nil in H.
Defined.


Lemma X21_worker_exits_within_two_steps_witness :
  is_alive 0 (thread_step 0 sample_env
                (thread_step 0 sample_env (stop (λ _, []) 0 storage_entered))) = false.
Proof.
  apply (X21_worker_exits_within_two_steps 0 (Build_Thread storage_stress 0 InBody true)).
  - vm_compute. reflexivity.
  - exact I.
  - vm_compute. reflexivity.
Defined.

Lemma X22_signal_handler_stops_everything_witness :
  let st := signal_handler 15 (λ _, []) (cpu_started.1, cpu_started.2) in
  signal_received st.1 = true ∧
  mgr_running st.1 = false ∧
  mgr_workloads st.1 = mgr_workloads cpu_started.1 ∧
  obj_running 0 st.2 = false ∧
  calls (log_since cpu_started.2 st.2) = [StopAll] ∧
  threads_kept cpu_started.2 st.2.
Proof.
  apply (X22_signal_handler_stops_everything 15 (λ _, []) cpu_started.1 cpu_started.2 0 0).
  - vm_compute. left.
  - vm_compute. left.
Defined.

Lemma X23_cleanup_removes_only_recorded_witness :
  ("/etc/passwd" ∈ fs (cleanup (λ _, false) 0 storage_stopped) →
   "/etc/passwd" ∈ fs storage_stopped) ∧
  ((∀ c, c ∈ family 0 storage_stopped → "/etc/passwd" ∉ recorded_files c storage_stopped) →
   "/etc/passwd" ∈ fs storage_stopped →
   "/etc/passwd" ∈ fs (cleanup (λ _, false) 0 storage_stopped)).
Proof.
  exact (X23_cleanup_removes_only_recorded (λ _, false) 0 storage_stopped "/etc/passwd").
Defined.

Lemma X24_failed_write_leaves_unrecorded_file_witness :
  let f := storage_filename write_fault_env in
  let w1 := thread_step 0 write_fault_env storage_entered in
  f ∈ fs w1 ∧
  heap w1 = heap storage_entered ∧
  errors_total "storage" w1 = S (errors_total "storage" storage_entered) ∧
  ((∀ c, c ∈ family 0 storage_entered → f ∉ recorded_files c storage_entered) →
   f ∈ fs (cleanup (λ _, false) 0 w1)).
Proof.
  apply (X24_failed_write_leaves_unrecorded_file 0
           (Build_Thread storage_stress 0 InBody true) write_fault_env (λ _, false) 0
           storage_entered).
  - vm_compute. reflexivity.
  - reflexivity.
  - reflexivity.
  - reflexivity.
Defined.
